(** * Discord Reminder for Obsidian: a model of [src/main.ts]

    The plugin scans markdown notes for markers [(discord@YYYY-MM-DD HH:MM)],
    keeps the extracted tasks in an in-memory cache, and on a timer sends one
    Discord notification per task whose due time has passed, remembering the
    identities already notified in the plugin's data file.

    The definitions come first:
    - [JS]      strings as sequences of UTF-16 code units and the
                [String.prototype] functions the plugin calls;
    - [Regex]   the regular expression of [extractTasks], matched the way a
                backtracking engine matches it;
    - [Host]    what the plugin takes from its engine: the parsing of a date
                string and [Date.prototype.toISOString], with [Utc] as an
                engine to run examples on;
    - [World]   the fields of the class [DiscordReminder], the data file and
                the calls the plugin made, and the methods of the class as
                functions on worlds;
    - [Event], [step], [run]  what happens to a loaded plugin.
    The theorems follow: strings, the regular expression, [extractTasks],
    the notified set, the cache, sweeps. *)

From Stdlib Require Import Ascii String.
From Stdlib Require Import List NArith ZArith Lia Bool.
Import ListNotations.

Set Implicit Arguments.

(* ================================================================== *)
(** ** JavaScript strings *)

Module JS.

(** A JavaScript string is a sequence of 16-bit code units. *)
Definition jsstr := list N.

(** An ASCII literal of the source as a JavaScript string. *)
Definition str (s : string) : jsstr :=
  List.map N_of_ascii (list_ascii_of_string s).

Definition eqb_str (a b : jsstr) : bool :=
  if list_eq_dec N.eq_dec a b then true else false.

Definition mem (x : jsstr) (l : list jsstr) : bool :=
  existsb (eqb_str x) l.

(** ECMAScript [LineTerminator]: LF, CR, LS, PS. *)
Definition is_line_terminator (c : N) : bool :=
  ((c =? 10) || (c =? 13) || (c =? 8232) || (c =? 8233))%N.

(** ECMAScript [WhiteSpace]: TAB, VT, FF, SP, NBSP, ZWNBSP and the
    Unicode space separators. *)
Definition is_white_space (c : N) : bool :=
  ((c =? 9) || (c =? 11) || (c =? 12) || (c =? 32) || (c =? 160)
   || (c =? 65279) || (c =? 5760) || ((8192 <=? c) && (c <=? 8202))
   || (c =? 8239) || (c =? 8287) || (c =? 12288))%N.

(** What [String.prototype.trim] removes: white space and line
    terminators. *)
Definition is_trimmed_char (c : N) : bool :=
  is_white_space c || is_line_terminator c.

Fixpoint trimStart (s : jsstr) : jsstr :=
  match s with
  | c :: s' => if is_trimmed_char c then trimStart s' else s
  | [] => []
  end.

Definition trimEnd (s : jsstr) : jsstr := rev (trimStart (rev s)).

(** [s.trim()] *)
Definition trim (s : jsstr) : jsstr := trimEnd (trimStart s).

(** [s.startsWith(p)] *)
Fixpoint startsWith (p s : jsstr) : bool :=
  match p, s with
  | [], _ => true
  | a :: p', b :: s' => (a =? b)%N && startsWith p' s'
  | _ :: _, [] => false
  end.

(** [s.replace(p, r)] with a string pattern [p] and a replacement [r]
    that holds no [$]: the first occurrence of [p] is replaced, an
    absent pattern leaves [s] as it is. *)
Fixpoint replace (p r s : jsstr) : jsstr :=
  if startsWith p s then r ++ skipn (length p) s
  else match s with
       | [] => []
       | c :: s' => c :: replace p r s'
       end.

End JS.

Import JS.

(* ================================================================== *)
(** ** The regular expression of [extractTasks]

    [/(.*?)(\(discord@(\d{4}-\d{2}-\d{2} \d{2}:\d{2})\))/g]

    The expression has no anchor, boundary or look-behind, so a match
    attempt at [lastIndex] only reads the text from [lastIndex] on: the
    functions below take that suffix of the content. *)

Module Regex.

(** The pieces the marker is made of: a literal code unit, or [\d]. *)
Inductive atom : Type :=
| Lit (c : N)
| Digit.

Definition atom_matches (a : atom) (c : N) : bool :=
  match a with
  | Lit x => (c =? x)%N
  | Digit => ((48 <=? c) && (c <=? 57))%N
  end.

(** A concatenation of atoms matched at the head of [s]: the text it
    consumed and the text left. *)
Fixpoint match_seq (p : list atom) (s : jsstr) : option (jsstr * jsstr) :=
  match p with
  | [] => Some ([], s)
  | a :: p' =>
      match s with
      | [] => None
      | c :: s' =>
          if atom_matches a c then
            match match_seq p' s' with
            | Some (m, r) => Some (c :: m, r)
            | None => None
            end
          else None
      end
  end.

Definition lits (s : string) : list atom := List.map Lit (str s).
Definition digits (n : nat) : list atom := repeat Digit n.

(** [\d{4}-\d{2}-\d{2} \d{2}:\d{2}], the third group. *)
Definition payload : list atom :=
  digits 4 ++ lits "-" ++ digits 2 ++ lits "-" ++ digits 2
  ++ lits " " ++ digits 2 ++ lits ":" ++ digits 2.

(** [\(discord@(...)\)], the second group, at the head of [s]: the text
    of the third group and the text after the closing parenthesis. *)
Definition match_marker (s : jsstr) : option (jsstr * jsstr) :=
  match match_seq (lits "(discord@") s with
  | Some (_, s1) =>
      match match_seq payload s1 with
      | Some (g3, s2) =>
          match match_seq (lits ")") s2 with
          | Some (_, s3) => Some (g3, s3)
          | None => None
          end
      | None => None
      end
  | None => None
  end.

(** What [exec] returns on success: [match[1]], [match[3]], and the
    content from the new [lastIndex] on. *)
Record result : Type := mkResult {
  group1 : jsstr;
  group3 : jsstr;
  rest : jsstr
}.

(** One attempt at a fixed start position.  The lazy [(.*?)] first tries
    to take nothing and lets the marker match; when the marker fails it
    takes one more code unit, which the dot accepts unless it is a line
    terminator, and tries again. *)
Fixpoint attempt (s : jsstr) : option result :=
  match match_marker s with
  | Some (g3, r) => Some (mkResult [] g3 r)
  | None =>
      match s with
      | [] => None
      | c :: s' =>
          if is_line_terminator c then None
          else match attempt s' with
               | Some m => Some (mkResult (c :: group1 m) (group3 m) (rest m))
               | None => None
               end
      end
  end.

(** [regex.exec(content)] from [lastIndex]: the attempt is made at
    [lastIndex], then one position further, and so on to the end of
    the content; the first position whose attempt succeeds gives the
    match. [None] is the source's [null]. *)
Fixpoint exec (s : jsstr) : option result :=
  match attempt s with
  | Some m => Some m
  | None =>
      match s with
      | [] => None
      | _ :: s' => exec s'
      end
  end.

End Regex.

Import Regex.

(* ================================================================== *)
(** ** The runtime: [Date] *)

(** A [Date] object holds a time value, milliseconds since the epoch, or
    [NaN] (an "Invalid Date"). *)
Inductive Date : Type :=
| InvalidDate
| TimeValue (t : Z).

(** What the plugin asks of its JavaScript engine.  Parsing a date string
    that is not in the ISO format is left to the engine by the language
    definition, and a string without offset is read in the local time
    zone, so both are kept abstract. *)
Class Host : Type := {
  (** [new Date(s)] for a string [s] *)
  Date_parse : jsstr -> Date;
  (** [toISOString] of a valid time value *)
  isoString : Z -> jsstr
}.

(** [d.toISOString()]: a [RangeError] ([None]) on an invalid date. *)
Definition toISOString {host : Host} (d : Date) : option jsstr :=
  match d with
  | InvalidDate => None
  | TimeValue t => Some (isoString t)
  end.

(** [d <= now] for a date [d] and a valid date of time value [now]: the
    comparison of the two numbers, false when [d] holds [NaN]. *)
Definition Date_le (d : Date) (now : Z) : bool :=
  match d with
  | InvalidDate => false
  | TimeValue t => (t <=? now)%Z
  end.

(** *** A reference engine

    An engine whose local time zone is UTC, used to run the examples.
    A payload is read field by field; a month outside 1..12, a day
    outside 1..31, an hour above 23 or a minute above 59 gives an
    invalid date, and a day beyond the end of its month runs over into
    the next month. *)
Module Utc.

Local Open Scope Z_scope.

(** Days from 1970-01-01 to the given civil date (proleptic Gregorian). *)
Definition days_from_civil (y m d : Z) : Z :=
  let y' := if m <=? 2 then y - 1 else y in
  let era := y' / 400 in
  let yoe := y' - era * 400 in
  let mp := (m + 9) mod 12 in
  let doy := (153 * mp + 2) / 5 + d - 1 in
  let doe := yoe * 365 + yoe / 4 - yoe / 100 + doy in
  era * 146097 + doe - 719468.

Definition civil_from_days (z : Z) : Z * Z * Z :=
  let z := z + 719468 in
  let era := z / 146097 in
  let doe := z - era * 146097 in
  let yoe := (doe - doe / 1460 + doe / 36524 - doe / 146096) / 365 in
  let doy := doe - (365 * yoe + yoe / 4 - yoe / 100) in
  let mp := (5 * doy + 2) / 153 in
  let d := doy - (153 * mp + 2) / 5 + 1 in
  let m := if mp <? 10 then mp + 3 else mp - 9 in
  let y := yoe + era * 400 in
  (if m <=? 2 then y + 1 else y, m, d).

(** The number written by [len] digits of [s] from position [from]. *)
Definition field (from len : nat) (s : jsstr) : Z :=
  fold_left (fun acc c => acc * 10 + (Z.of_N c - 48))
            (firstn len (skipn from s)) 0.

Definition parse (s : jsstr) : Date :=
  match match_seq payload s with
  | Some (_, []) =>
      let y := field 0 4 s in
      let mo := field 5 2 s in
      let d := field 8 2 s in
      let h := field 11 2 s in
      let mi := field 14 2 s in
      if (1 <=? mo) && (mo <=? 12) && (1 <=? d) && (d <=? 31)
         && (h <=? 23) && (mi <=? 59)
      then TimeValue ((days_from_civil y mo 1 + (d - 1)) * 86400000
                      + h * 3600000 + mi * 60000)
      else InvalidDate
  | _ => InvalidDate
  end.

(** [n] in decimal on exactly [w] digits. *)
Fixpoint pad (w : nat) (n : Z) : jsstr :=
  match w with
  | O => []
  | S w' => pad w' (n / 10) ++ [Z.to_N (48 + n mod 10)]
  end.

Definition iso (t : Z) : jsstr :=
  let day := t / 86400000 in
  let ms := t mod 86400000 in
  let '(y, m, d) := civil_from_days day in
  let year :=
    if (0 <=? y) && (y <=? 9999) then pad 4 y
    else (if y <? 0 then str "-" else str "+") ++ pad 6 (Z.abs y) in
  year ++ str "-" ++ pad 2 m ++ str "-" ++ pad 2 d
  ++ str "T" ++ pad 2 (ms / 3600000)
  ++ str ":" ++ pad 2 ((ms / 60000) mod 60)
  ++ str ":" ++ pad 2 ((ms / 1000) mod 60)
  ++ str "." ++ pad 3 (ms mod 1000) ++ str "Z".

Definition host : Host := {| Date_parse := parse; isoString := iso |}.

End Utc.

(* ================================================================== *)
(** ** The plugin *)

(** An object of type [Task].  [ref] is the object's reference: the
    fields are never assigned after creation, so an object is carried
    with its fields. *)
Record Task : Type := mkTask {
  ref : nat;
  content : jsstr;
  dueDateTime : Date
}.

(** The object kept in the plugin's data file and the [settings]
    object, which [loadSettings] builds from it: the two keys the
    plugin reads and writes, each present or not. *)
Module Data.
Record t : Type := mk {
  webhookUrl : option jsstr;
  notifiedTasks : option (list jsstr)
}.
End Data.

(** [DEFAULT_SETTINGS] *)
Definition DEFAULT_SETTINGS : Data.t := Data.mk (Some []) None.

(** [Object.assign({}, a, b)]: the keys of [a], overridden by those of
    [b]; a [null] source ([None]) contributes nothing. *)
Definition assign (a : Data.t) (b : option Data.t) : Data.t :=
  match b with
  | None => a
  | Some b =>
      Data.mk
        (match Data.webhookUrl b with Some u => Some u | None => Data.webhookUrl a end)
        (match Data.notifiedTasks b with Some l => Some l | None => Data.notifiedTasks a end)
  end.

(** A [requestUrl] call: the address and the two embed fields that
    vary, "Due Date" and "Task". *)
Record Request : Type := mkRequest {
  url : jsstr;
  dueDateField : jsstr;
  taskField : jsstr
}.

(** The plugin instance, its environment, and a record of what it did. *)
Record World : Type := mkWorld {
  (** [this.settings] *)
  settings : Data.t;
  (** [this.notifiedTasks], a [Set<string>] in insertion order *)
  notifiedTasks : list jsstr;
  (** [this.taskCache], a [Set<Task>] in insertion order; the elements
      are objects, which a [Set] compares by reference *)
  taskCache : list Task;
  (** the data file behind [loadData] and [saveData]; [None] when
      there is none *)
  dataFile : option Data.t;
  (** the next reference given to a new object *)
  heapTop : nat;
  (** the calls of [sendNotification], oldest first: [reminderText]
      and [dateTime] *)
  sent : list (jsstr * jsstr);
  (** the calls of [requestUrl], oldest first *)
  posted : list Request;
  (** the number of [console.warn] calls *)
  warned : nat
}.

Definition set_settings (v : Data.t) (w : World) : World :=
  mkWorld v (notifiedTasks w) (taskCache w) (dataFile w) (heapTop w)
          (sent w) (posted w) (warned w).
Definition set_notifiedTasks (v : list jsstr) (w : World) : World :=
  mkWorld (settings w) v (taskCache w) (dataFile w) (heapTop w)
          (sent w) (posted w) (warned w).
Definition set_taskCache (v : list Task) (w : World) : World :=
  mkWorld (settings w) (notifiedTasks w) v (dataFile w) (heapTop w)
          (sent w) (posted w) (warned w).
Definition set_dataFile (v : option Data.t) (w : World) : World :=
  mkWorld (settings w) (notifiedTasks w) (taskCache w) v (heapTop w)
          (sent w) (posted w) (warned w).
Definition set_heapTop (v : nat) (w : World) : World :=
  mkWorld (settings w) (notifiedTasks w) (taskCache w) (dataFile w) v
          (sent w) (posted w) (warned w).
Definition set_sent (v : list (jsstr * jsstr)) (w : World) : World :=
  mkWorld (settings w) (notifiedTasks w) (taskCache w) (dataFile w)
          (heapTop w) v (posted w) (warned w).
Definition set_posted (v : list Request) (w : World) : World :=
  mkWorld (settings w) (notifiedTasks w) (taskCache w) (dataFile w)
          (heapTop w) (sent w) v (warned w).
Definition set_warned (v : nat) (w : World) : World :=
  mkWorld (settings w) (notifiedTasks w) (taskCache w) (dataFile w)
          (heapTop w) (sent w) (posted w) v.

(** [set.add(x)] on a [Set<string>]. *)
Definition Set_add (x : jsstr) (l : list jsstr) : list jsstr :=
  if mem x l then l else l ++ [x].

(** [new Set(array)] *)
Definition Set_of_array (a : list jsstr) : list jsstr :=
  fold_left (fun s x => Set_add x s) a [].

(** [set.add(task)] on a [Set<Task>]: the same object is the same
    reference. *)
Definition TaskSet_add (t : Task) (l : list Task) : list Task :=
  if existsb (fun u => Nat.eqb (ref u) (ref t)) l then l else l ++ [t].

(** A markdown or other file of the vault, with the text that
    [vault.read] returns for it. *)
Record TFile : Type := mkFile {
  extension : jsstr;
  text : jsstr
}.

(** How a call ended: it returned, or it threw; the world as the call
    left it either way. *)
Inductive outcome : Type :=
| Returned (w : World)
| Thrown (w : World).

Definition world_of (o : outcome) : World :=
  match o with Returned w => w | Thrown w => w end.

Definition threw (o : outcome) : bool :=
  match o with Returned _ => false | Thrown _ => true end.

Section Methods.

Context {host : Host}.

Definition checkbox : jsstr := str "- [ ]".

(** Lines 74 to 78 of [extractTasks]: the reminder text made from
    [match[1]]. *)
Definition reminderText_of (g1 : jsstr) : jsstr :=
  let reminderText := trim g1 in
  if startsWith checkbox reminderText
  then trim (replace checkbox [] reminderText)
  else reminderText.

(** The [while] loop of [extractTasks] on the content from [lastIndex]
    on; [next] is the reference of the next object created.  Every
    round moves [lastIndex] past a marker, so the loop makes at most
    as many rounds as the content has code units: [fuel] counts them. *)
Fixpoint extract_loop (fuel : nat) (next : nat) (s : jsstr) : list Task :=
  match fuel with
  | O => []
  | S fuel' =>
      match exec s with
      | None => []
      | Some m =>
          mkTask next (reminderText_of (group1 m)) (Date_parse (group3 m))
          :: extract_loop fuel' (S next) (rest m)
      end
  end.

(** [extractTasks(content)]: the array of the objects created, the
    first with reference [next]. *)
Definition extractTasks (next : nat) (body : jsstr) : list Task :=
  extract_loop (S (length body)) next body.

(** [addToTaskCache(file)], with the read completed. *)
Definition addToTaskCache (file : TFile) (w : World) : World :=
  if negb (eqb_str (extension file) (str "md")) then w
  else
    let fileContent := text file in
    let tasks := extractTasks (heapTop w) fileContent in
    set_taskCache
      (fold_left (fun cache task => TaskSet_add task cache) tasks (taskCache w))
      (set_heapTop (heapTop w + length tasks) w).

(** [vault.getMarkdownFiles()] *)
Definition getMarkdownFiles (vault : list TFile) : list TFile :=
  filter (fun f => eqb_str (extension f) (str "md")) vault.

(** [initializeTaskCache()], the reads completing in the order of the
    calls. *)
Definition initializeTaskCache (vault : list TFile) (w : World) : World :=
  fold_left (fun w file => addToTaskCache file w)
            (getMarkdownFiles vault) (set_taskCache [] w).

(** [handleFileChange(file, _data, _cache)] *)
Definition handleFileChange (file : TFile) (w : World) : World :=
  addToTaskCache file w.

(** [saveNotifiedTasks()], the write completed. *)
Definition saveNotifiedTasks (w : World) : World :=
  set_dataFile (Some (Data.mk None (Some (notifiedTasks w)))) w.

(** [saveSettings()], the write completed. *)
Definition saveSettings (w : World) : World :=
  set_dataFile (Some (settings w)) w.

(** [loadSettings()] *)
Definition loadSettings (w : World) : World :=
  set_settings (assign DEFAULT_SETTINGS (dataFile w)) w.

(** [loadNotifiedTasks()] *)
Definition loadNotifiedTasks (w : World) : World :=
  match dataFile w with
  | Some savedTasks =>
      match Data.notifiedTasks savedTasks with
      | Some a => set_notifiedTasks (Set_of_array a) w
      | None => w
      end
  | None => w
  end.

(** [!webhookUrl || webhookUrl.trim() === ""] *)
Definition blank (webhookUrl : option jsstr) : bool :=
  match webhookUrl with
  | None => true
  | Some u => eqb_str u [] || eqb_str (trim u) []
  end.

(** [sendNotification(reminderText, dateTime)] up to the [requestUrl]
    call.  What follows the call in the source only writes to the
    console. *)
Definition sendNotification (reminderText dateTime : jsstr) (w : World)
  : World :=
  let w := set_sent (sent w ++ [(reminderText, dateTime)]) w in
  let webhookUrl := Data.webhookUrl (settings w) in
  if blank webhookUrl then set_warned (S (warned w)) w
  else
    match webhookUrl with
    | Some u => set_posted (posted w ++ [mkRequest u dateTime reminderText]) w
    | None => w
    end.

(** The template literal of [checkTask]. *)
Definition taskId_of (content iso : jsstr) : jsstr :=
  content ++ str "-" ++ iso.

(** [checkTask(content, dueDateTime)]; [now] is the time value of
    [new Date()]. *)
Definition checkTask (now : Z) (content : jsstr) (dueDateTime : Date)
  (w : World) : outcome :=
  match toISOString dueDateTime with
  | None => Thrown w
  | Some iso =>
      let taskId := taskId_of content iso in
      if Date_le dueDateTime now && negb (mem taskId (notifiedTasks w)) then
        let w := set_notifiedTasks (Set_add taskId (notifiedTasks w)) w in
        let w := saveNotifiedTasks w in
        Returned (sendNotification content iso w)
      else Returned w
  end.

(** The [forEach] of [checkTasks] over the elements left to visit;
    [clock k] is the time the [k]-th call of [checkTask] reads.  An
    exception in the callback ends the iteration. *)
Fixpoint forEach_checkTask (clock : nat -> Z) (k : nat) (tasks : list Task)
  (w : World) : outcome :=
  match tasks with
  | [] => Returned w
  | task :: tasks' =>
      match checkTask (clock k) (content task) (dueDateTime task) w with
      | Returned w' => forEach_checkTask clock (S k) tasks' w'
      | Thrown w' => Thrown w'
      end
  end.

(** [checkTasks()] *)
Definition checkTasks (clock : nat -> Z) (w : World) : outcome :=
  forEach_checkTask clock 0 (taskCache w) w.

(** The [onChange] handler of the settings tab. *)
Definition onChange (value : jsstr) (w : World) : World :=
  saveSettings
    (set_settings (Data.mk (Some value) (Data.notifiedTasks (settings w))) w).

(** A new instance of the class: the field initialisers. *)
Definition newInstance (w : World) : World :=
  set_settings (Data.mk None None)
    (set_notifiedTasks [] (set_taskCache [] w)).

(** [onload()] *)
Definition onload (vault : list TFile) (w : World) : World :=
  initializeTaskCache vault (loadNotifiedTasks (loadSettings w)).

(** What happens to a running plugin. *)
Inductive Event : Type :=
| Sweep (clock : nat -> Z)      (** the interval timer fires *)
| Changed (file : TFile)        (** the metadata cache reports a change *)
| Edited (value : jsstr)        (** the user edits the webhook URL *)
| Restart (vault : list TFile). (** the process ends and a new one loads
                                    the plugin *)

(** One event.  An exception that leaves the timer callback is
    reported by the engine and the plugin goes on with the world as the
    sweep left it. *)
Definition step (w : World) (e : Event) : World :=
  match e with
  | Sweep clock => world_of (checkTasks clock w)
  | Changed file => handleFileChange file w
  | Edited value => onChange value w
  | Restart vault => onload vault (newInstance w)
  end.

Definition run (w : World) (events : list Event) : World :=
  fold_left step events w.

(** The world when the plugin is loaded for the first time of a
    process: the data file as found, nothing done yet. *)
Definition boot (data : option Data.t) (vault : list TFile) : World :=
  onload vault (mkWorld (Data.mk None None) [] [] data 0 [] [] 0).

End Methods.

(* ================================================================== *)
(** ** Notions used in the statements *)

(** The text of a marker with payload [p]. *)
Definition marker_text (p : jsstr) : jsstr :=
  str "(discord@" ++ p ++ str ")".

Arguments marker_text : simpl never.

(** [p] has the shape [YYYY-MM-DD HH:MM]. *)
Definition is_payload (p : jsstr) : Prop :=
  match_seq payload p = Some (p, []).

(** No marker starts at any of the first [n] positions of [s]. *)
Definition marker_free (n : nat) (s : jsstr) : Prop :=
  forall k, k < n -> match_marker (skipn k s) = None.

(** The part of [b] after its last line terminator, all of [b] when it
    has none. *)
Fixpoint last_line (b : jsstr) : jsstr :=
  match b with
  | [] => []
  | _ :: b' => if existsb is_line_terminator b then last_line b' else b
  end.

(** [a] occurs in [s] as a contiguous piece. *)
Definition infix (a s : jsstr) : Prop :=
  exists l r, s = l ++ a ++ r.

(** The fields of a task object, without its reference. *)
Definition fields (t : Task) : jsstr * Date :=
  (content t, dueDateTime t).

(** The identities in the notified set of the data file. *)
Definition persisted (w : World) : list jsstr :=
  match dataFile w with
  | Some d =>
      match Data.notifiedTasks d with
      | Some a => a
      | None => []
      end
  | None => []
  end.

(** The persisted notified set is intact: it holds every identity of
    the set in memory. *)
Definition intact (w : World) : Prop :=
  incl (notifiedTasks w) (persisted w).

(** Every object of the cache was created before [heapTop]. *)
Definition cache_allocated (w : World) : Prop :=
  Forall (fun t => ref t < heapTop w) (taskCache w).

Section Notions.

Context {host : Host}.

(** The identity of a task, as [checkTask] computes it; [None] when
    the computation throws. *)
Definition identity (t : Task) : option jsstr :=
  option_map (taskId_of (content t)) (toISOString (dueDateTime t)).

(** The identities of a list of [sendNotification] calls. *)
Definition ids_of (calls : list (jsstr * jsstr)) : list jsstr :=
  List.map (fun d => taskId_of (fst d) (snd d)) calls.

(** The identities for which [sendNotification] was called, oldest
    first. *)
Definition sent_ids (w : World) : list jsstr := ids_of (sent w).

(** The due time of a task is a valid date. *)
Definition valid_date (t : Task) : Prop := dueDateTime t <> InvalidDate.

(** The run of [events] from [w] restarts the process only in worlds
    whose persisted notified set is intact. *)
Fixpoint intact_at_restarts (w : World) (events : list Event) : Prop :=
  match events with
  | [] => True
  | e :: events' =>
      (match e with Restart _ => intact w | _ => True end)
      /\ intact_at_restarts (step w e) events'
  end.

(** Every identity notified so far is in the notified set, and none
    was notified twice. *)
Definition recorded (w : World) : Prop :=
  incl (sent_ids w) (notifiedTasks w) /\ NoDup (sent_ids w).

End Notions.

(** The payloads of the markers of [s], one for every position of [s]
    at which a marker starts, in the order of the text. *)
Fixpoint payloads (s : jsstr) : list jsstr :=
  (match match_marker s with Some (p, _) => [p] | None => [] end)
  ++ match s with
     | [] => []
     | _ :: s' => payloads s'
     end.

(** No event of the list is an edit of the webhook URL. *)
Definition no_edit (events : list Event) : Prop :=
  Forall (fun e => match e with Edited _ => False | _ => True end) events.

(** The data file, if any, holds no webhook URL, or one made of white
    space only. *)
Definition no_url (data : option Data.t) : Prop :=
  match data with
  | Some d =>
      match Data.webhookUrl d with
      | Some u => Forall (fun c => is_trimmed_char c = true) u
      | None => True
      end
  | None => True
  end.

(** No URL is configured, in the settings or in the data file, and no
    request was made. *)
Definition unconfigured (w : World) : Prop :=
  blank (Data.webhookUrl (settings w)) = true
  /\ blank (Data.webhookUrl (assign DEFAULT_SETTINGS (dataFile w))) = true
  /\ posted w = [].

(** [u] holds a code unit that [trim] does not remove. *)
Definition has_text (u : jsstr) : Prop :=
  exists c, In c u /\ is_trimmed_char c = false.

(* ================================================================== *)
(** ** Notes, clocks and data files of the examples *)

Module Example.

Definition nl : jsstr := [10%N].

(** ["foo\nbar "], the text before the first marker of [two_lines]. *)
Definition before1 : jsstr := str "foo" ++ nl ++ str "bar ".
Definition payload1 : jsstr := str "2025-01-01 09:00".
Definition after1 : jsstr := str " baz (discord@2025-01-02 10:00)".

(** A note of two lines and two markers. *)
Definition two_lines : jsstr := before1 ++ marker_text payload1 ++ after1.

(** A note of two lines with one marker, on the second. *)
Definition second_line : jsstr := before1 ++ marker_text payload1.

Definition unchecked : jsstr := str "- [ ] Buy milk (discord@2025-01-01 09:00)".
Definition checked : jsstr := str "- [x] Buy milk (discord@2025-01-01 09:00)".

(** 2025-01-01 09:00 and 2025-01-02 09:00 in UTC. *)
Definition jan1 : Z := 1735722000000.
Definition jan2 : Z := 1735808400000.

(** A clock that reads [t] at every call. *)
Definition at_time (t : Z) : nat -> Z := fun _ => t.

Definition milk : TFile := mkFile (str "md") unchecked.
Definition milk_removed : TFile := mkFile (str "md") (str "- [ ] Buy milk").

(** A note whose first marker has month 13, before a marker of 2020. *)
Definition bad_month : TFile :=
  mkFile (str "md")
    (str "x (discord@2024-13-40 25:99)" ++ nl
     ++ str "y (discord@2020-01-01 09:00)").

Definition hook : jsstr := str "https://discord.example/hook".

(** A data file whose webhook URL is two spaces. *)
Definition spaces_only : option Data.t := Some (Data.mk (Some (str "  ")) None).

(** A data file that holds a webhook URL and nothing else. *)
Definition hook_only : option Data.t := Some (Data.mk (Some hook) None).

(** A sweep on 2025-01-02, a restart, and a sweep again. *)
Definition sweep_restart_sweep : list Event :=
  [Sweep (at_time jan2); Restart [milk]; Sweep (at_time jan2)].

(** Two notes with the same task, and a note with two other tasks. *)
Definition milk_again : TFile :=
  mkFile (str "md") (str "Buy milk (discord@2025-01-01 09:00)").
Definition chores : TFile :=
  mkFile (str "md")
    (str "- [ ] Call Ann (discord@2025-01-01 18:30)" ++ nl
     ++ str "Pay rent (discord@2025-02-01 08:00)").

(** Sweeps, a change and restarts, without an edit of the URL. *)
Definition busy_day : list Event :=
  [Sweep (at_time jan1); Changed chores; Restart [milk; chores];
   Sweep (at_time jan2); Restart [milk; milk_again; chores];
   Sweep (at_time jan2)].

End Example.

(* ================================================================== *)
(** ** Strings *)

Lemma eqb_str_true (a b : jsstr) : eqb_str a b = true <-> a = b.
Proof.
  unfold eqb_str. destruct (list_eq_dec N.eq_dec a b); split; congruence.
Qed.

Lemma mem_In (x : jsstr) (l : list jsstr) : mem x l = true <-> In x l.
Proof.
  unfold mem. rewrite existsb_exists. split.
  - intros (y & Hy & E). apply eqb_str_true in E. now subst.
  - intros H. exists x. split; [assumption | now apply eqb_str_true].
Qed.

Lemma mem_false (x : jsstr) (l : list jsstr) : mem x l = false <-> ~ In x l.
Proof.
  rewrite <- mem_In. destruct (mem x l); split; congruence.
Qed.

Lemma trimStart_suffix (s : jsstr) : exists a, s = a ++ trimStart s.
Proof.
  induction s as [|c s IH]; simpl.
  - now exists [].
  - destruct (is_trimmed_char c).
    + destruct IH as [a Ha]. exists (c :: a). simpl. now f_equal.
    + now exists [].
Qed.

Lemma trimEnd_prefix (s : jsstr) : exists b, s = trimEnd s ++ b.
Proof.
  unfold trimEnd. destruct (trimStart_suffix (rev s)) as [a Ha].
  exists (rev a). rewrite <- rev_app_distr, <- Ha. now rewrite rev_involutive.
Qed.

Lemma trim_infix (s : jsstr) : infix (trim s) s.
Proof.
  unfold trim. destruct (trimStart_suffix s) as [a Ha].
  destruct (trimEnd_prefix (trimStart s)) as [b Hb].
  exists a, b. now rewrite <- Hb.
Qed.

Lemma skipn_infix (n : nat) (s : jsstr) : infix (skipn n s) s.
Proof.
  exists (firstn n s), []. now rewrite app_nil_r, firstn_skipn.
Qed.

Lemma infix_trans (a b c : jsstr) : infix a b -> infix b c -> infix a c.
Proof.
  intros (l1 & r1 & ->) (l2 & r2 & ->).
  exists (l2 ++ l1), (r1 ++ r2). now rewrite <- !app_assoc.
Qed.

Lemma infix_refl (a : jsstr) : infix a a.
Proof. exists [], []. now rewrite app_nil_r. Qed.

Lemma infix_Forall (P : N -> Prop) (a s : jsstr) :
  infix a s -> Forall P s -> Forall P a.
Proof.
  intros (l & r & ->) H.
  apply Forall_app in H as [_ H]. now apply Forall_app in H as [H _].
Qed.

Lemma replace_at_head (p r s : jsstr) :
  startsWith p s = true -> replace p r s = r ++ skipn (length p) s.
Proof.
  intros H. destruct s; simpl; now rewrite H.
Qed.

Lemma startsWith_app (p s : jsstr) :
  startsWith p s = true <-> exists r, s = p ++ r.
Proof.
  revert s. induction p as [|a p IH]; intros s; simpl.
  - split; [now exists s | reflexivity].
  - destruct s as [|b s].
    + split; [discriminate | now intros [r Hr]].
    + rewrite andb_true_iff, N.eqb_eq, IH. split.
      * intros [-> [r ->]]. now exists r.
      * intros [r Hr]. injection Hr as -> ->. split; [reflexivity | now exists r].
Qed.

Lemma trimStart_nil (s : jsstr) :
  trimStart s = [] <-> Forall (fun c => is_trimmed_char c = true) s.
Proof.
  induction s as [|c s IH]; cbn [trimStart].
  - split; [constructor | reflexivity].
  - destruct (is_trimmed_char c) eqn:E.
    + rewrite IH. split; [now constructor | now inversion 1].
    + split; [discriminate | inversion 1; congruence].
Qed.

(** [s.trim() === ""] says that [s] is made of white space and line
    terminators only. *)
Lemma trim_nil (s : jsstr) :
  trim s = [] <-> Forall (fun c => is_trimmed_char c = true) s.
Proof.
  unfold trim, trimEnd. split.
  - intros H. apply (f_equal (@rev N)) in H. rewrite rev_involutive in H.
    cbn [rev] in H. apply trimStart_nil in H. apply Forall_rev in H.
    rewrite rev_involutive in H.
    destruct (trimStart s) as [|c t] eqn:E; [now apply trimStart_nil|].
    exfalso. inversion H as [|? ? Hc _]; subst.
    destruct s as [|a s]; [discriminate|]. clear H.
    revert a E. induction s as [|b s IH]; intros a E; cbn [trimStart] in E.
    + destruct (is_trimmed_char a) eqn:Ea; [discriminate|].
      injection E as <- _. congruence.
    + destruct (is_trimmed_char a) eqn:Ea.
      * now apply (IH b).
      * injection E as <- _. congruence.
  - intros H. apply trimStart_nil in H. now rewrite H.
Qed.

(* ================================================================== *)
(** ** The regular expression *)

Lemma match_seq_inv (p : list atom) (s m r : jsstr) :
  match_seq p s = Some (m, r) ->
  s = m ++ r /\ length m = length p /\ match_seq p m = Some (m, []).
Proof.
  revert s m r. induction p as [|a p IH]; intros s m r; simpl.
  - intros [= <- <-]. now repeat split.
  - destruct s as [|c s]; [discriminate|].
    destruct (atom_matches a c) eqn:Ha; [|discriminate].
    destruct (match_seq p s) as [[m' r']|] eqn:E; [|discriminate].
    intros [= <- <-]. destruct (IH _ _ _ E) as (-> & Hl & Hm).
    simpl. rewrite Ha, Hm. repeat split. now f_equal.
Qed.

Lemma match_seq_extend (p : list atom) (m r : jsstr) :
  match_seq p m = Some (m, []) -> match_seq p (m ++ r) = Some (m, r).
Proof.
  revert m. induction p as [|a p IH]; intros m; simpl.
  - now intros [= <-].
  - destruct m as [|c m]; [discriminate|]. simpl.
    destruct (atom_matches a c); [|discriminate].
    destruct (match_seq p m) as [[m' r']|] eqn:E; [|discriminate].
    intros [= -> ->]. now rewrite (IH _ E).
Qed.

Lemma match_seq_lits_inv (l s m r : jsstr) :
  match_seq (List.map Lit l) s = Some (m, r) -> m = l.
Proof.
  revert s m r. induction l as [|a l IH]; intros s m r; simpl.
  - now intros [= <- _].
  - destruct s as [|c s]; [discriminate|].
    destruct (N.eqb_spec c a) as [->|]; [|discriminate].
    destruct (match_seq (List.map Lit l) s) as [[m' r']|] eqn:E; [|discriminate].
    intros [= <- _]. f_equal. eapply IH, E.
Qed.

Lemma match_seq_lits (l r : jsstr) :
  match_seq (List.map Lit l) (l ++ r) = Some (l, r).
Proof.
  induction l as [|a l IH]; simpl; [reflexivity|].
  now rewrite N.eqb_refl, IH.
Qed.

Lemma match_marker_inv (s g3 r : jsstr) :
  match_marker s = Some (g3, r) -> s = marker_text g3 ++ r /\ is_payload g3.
Proof.
  unfold match_marker, lits.
  destruct (match_seq _ s) as [[m1 s1]|] eqn:E1; [|discriminate].
  destruct (match_seq payload s1) as [[m2 s2]|] eqn:E2; [|discriminate].
  destruct (match_seq _ s2) as [[m3 s3]|] eqn:E3; [|discriminate].
  intros [= <- <-].
  pose proof (match_seq_lits_inv _ _ E1) as ->.
  pose proof (match_seq_lits_inv _ _ E3) as ->.
  apply match_seq_inv in E1 as (-> & _), E3 as (-> & _).
  apply match_seq_inv in E2 as (-> & _ & E2).
  split; [|exact E2]. unfold marker_text. now rewrite <- !app_assoc.
Qed.

Lemma match_marker_text (p r : jsstr) :
  is_payload p -> match_marker (marker_text p ++ r) = Some (p, r).
Proof.
  intros Hp. unfold match_marker, marker_text, lits.
  rewrite <- !app_assoc, match_seq_lits.
  rewrite (match_seq_extend _ _ Hp).
  now rewrite (match_seq_lits (str ")") r).
Qed.

Lemma is_payload_length (p : jsstr) : is_payload p -> length p = 16.
Proof. intros H. now apply match_seq_inv in H as (_ & H & _). Qed.

Lemma marker_text_length (p : jsstr) :
  is_payload p -> length (marker_text p) = 26.
Proof.
  intros H. unfold marker_text. rewrite !length_app, (is_payload_length H).
  reflexivity.
Qed.

Lemma marker_free_tail (n : nat) (c : N) (s : jsstr) :
  marker_free (S n) (c :: s) ->
  match_marker (c :: s) = None /\ marker_free n s.
Proof.
  intros H. split.
  - apply (H 0). lia.
  - intros k Hk. apply (H (S k)). lia.
Qed.

(** An attempt that succeeds: the capture has no line terminator and
    is followed at once by the marker. *)
Lemma attempt_inv (s : jsstr) (m : result) :
  attempt s = Some m ->
  s = group1 m ++ marker_text (group3 m) ++ rest m
  /\ is_payload (group3 m)
  /\ Forall (fun c => is_line_terminator c = false) (group1 m).
Proof.
  revert m. induction s as [|c s IH]; intros m; cbn [attempt].
  - destruct (match_marker []) as [[g3 r]|] eqn:E; [|discriminate].
    intros [= <-]. cbn [group1 group3 rest app].
    apply match_marker_inv in E as [E Hp]. now repeat split.
  - destruct (match_marker (c :: s)) as [[g3 r]|] eqn:E.
    + intros [= <-]. cbn [group1 group3 rest app].
      apply match_marker_inv in E as [E Hp]. now repeat split.
    + destruct (is_line_terminator c) eqn:Hc; [discriminate|].
      destruct (attempt s) as [m'|]; [|discriminate].
      intros [= <-]. cbn [group1 group3 rest].
      destruct (IH _ eq_refl) as (E' & Hp & Hf).
      repeat split; [cbn [app]; now f_equal | assumption | now constructor].
Qed.

Lemma attempt_eq (s : jsstr) :
  attempt s =
  match match_marker s with
  | Some (g3, r) => Some (mkResult [] g3 r)
  | None =>
      match s with
      | [] => None
      | c :: s' =>
          if is_line_terminator c then None
          else match attempt s' with
               | Some m => Some (mkResult (c :: group1 m) (group3 m) (rest m))
               | None => None
               end
      end
  end.
Proof. destruct s; reflexivity. Qed.

Lemma exec_eq (s : jsstr) :
  exec s =
  match attempt s with
  | Some m => Some m
  | None => match s with [] => None | _ :: s' => exec s' end
  end.
Proof. destruct s; reflexivity. Qed.

(** The attempt at the start of a text whose first marker comes after
    [b]. *)
Lemma attempt_first_marker (b p r : jsstr) :
  is_payload p ->
  marker_free (length b) (b ++ marker_text p ++ r) ->
  attempt (b ++ marker_text p ++ r)
  = if existsb is_line_terminator b then None else Some (mkResult b p r).
Proof.
  intros Hp. induction b as [|c b IH]; intros Hfree; rewrite attempt_eq.
  - cbn [app existsb]. now rewrite (match_marker_text r Hp).
  - rewrite <- app_comm_cons in *.
    apply marker_free_tail in Hfree as [Hnone Hfree].
    rewrite Hnone. cbn [existsb].
    destruct (is_line_terminator c); [reflexivity|]. cbn [orb].
    rewrite (IH Hfree). now destruct (existsb is_line_terminator b).
Qed.

(** [exec] on a text whose first marker comes after [b]: the capture
    is the last line of [b]. *)
Lemma exec_first_marker (b p r : jsstr) :
  is_payload p ->
  marker_free (length b) (b ++ marker_text p ++ r) ->
  exec (b ++ marker_text p ++ r) = Some (mkResult (last_line b) p r).
Proof.
  intros Hp. induction b as [|c b IH]; intros Hfree; rewrite exec_eq;
    rewrite (attempt_first_marker _ r Hp Hfree).
  - reflexivity.
  - rewrite <- app_comm_cons in *.
    apply marker_free_tail in Hfree as [_ Hfree].
    cbn [last_line].
    destruct (existsb is_line_terminator (c :: b)); [|reflexivity].
    now apply IH.
Qed.

Lemma attempt_no_marker (s : jsstr) :
  (forall k, match_marker (skipn k s) = None) -> attempt s = None.
Proof.
  induction s as [|c s IH]; intros H; rewrite attempt_eq;
    pose proof (H 0) as H0; cbn [skipn] in H0; rewrite H0; [reflexivity|].
  destruct (is_line_terminator c); [reflexivity|].
  rewrite IH; [reflexivity|]. intros k. apply (H (S k)).
Qed.

Lemma exec_no_marker (s : jsstr) :
  (forall k, match_marker (skipn k s) = None) -> exec s = None.
Proof.
  induction s as [|c s IH]; intros H; rewrite exec_eq;
    rewrite (attempt_no_marker _ H); [reflexivity|].
  apply IH. intros k. apply (H (S k)).
Qed.

(** A match of [exec]: some text is skipped, then come the capture and
    the marker. *)
Lemma exec_inv (s : jsstr) (m : result) :
  exec s = Some m ->
  exists skipped,
    s = skipped ++ group1 m ++ marker_text (group3 m) ++ rest m
    /\ is_payload (group3 m)
    /\ Forall (fun c => is_line_terminator c = false) (group1 m).
Proof.
  induction s as [|c s IH]; rewrite exec_eq.
  - destruct (attempt []) eqn:A; [|discriminate]. intros [= <-].
    exists []. now apply attempt_inv.
  - destruct (attempt (c :: s)) eqn:A.
    + intros [= <-]. exists []. now apply attempt_inv.
    + intros E. destruct (IH E) as (sk & -> & H). now exists (c :: sk).
Qed.

Lemma exec_rest_shorter (s : jsstr) (m : result) :
  exec s = Some m -> length (rest m) + 26 <= length s.
Proof.
  intros E. destruct (exec_inv _ E) as (sk & Hs & Hp & _).
  rewrite Hs at 1. rewrite !length_app, (marker_text_length Hp). lia.
Qed.

(* ================================================================== *)
(** ** [extractTasks] *)

Section Parser.

Context {host : Host}.

(** The loop never runs out of rounds: any two budgets above the
    length of the content give the same array. *)
Lemma extract_loop_fuel (f1 f2 n : nat) (s : jsstr) :
  length s < f1 -> length s < f2 ->
  extract_loop f1 n s = extract_loop f2 n s.
Proof.
  revert f2 n s. induction f1 as [|f1 IH]; intros f2 n s H1 H2; [lia|].
  destruct f2 as [|f2]; [lia|]. cbn [extract_loop].
  destruct (exec s) as [m|] eqn:E; [|reflexivity].
  apply exec_rest_shorter in E. f_equal. apply IH; lia.
Qed.

(** [extractTasks], one round of its loop at a time. *)
Lemma extractTasks_eq (n : nat) (s : jsstr) :
  extractTasks n s =
  match exec s with
  | None => []
  | Some m =>
      mkTask n (reminderText_of (group1 m)) (Date_parse (group3 m))
      :: extractTasks (S n) (rest m)
  end.
Proof.
  unfold extractTasks.
  change (extract_loop (S (length s)) n s) with
    (match exec s with
     | None => []
     | Some m =>
         mkTask n (reminderText_of (group1 m)) (Date_parse (group3 m))
         :: extract_loop (length s) (S n) (rest m)
     end).
  destruct (exec s) as [m|] eqn:E; [|reflexivity].
  apply exec_rest_shorter in E. f_equal. apply extract_loop_fuel; lia.
Qed.

Lemma extract_loop_fields (fuel n1 n2 : nat) (s : jsstr) :
  List.map fields (extract_loop fuel n1 s)
  = List.map fields (extract_loop fuel n2 s).
Proof.
  revert n1 n2 s. induction fuel as [|fuel IH]; intros n1 n2 s; [reflexivity|].
  cbn [extract_loop]. destruct (exec s) as [m|]; [|reflexivity].
  cbn [List.map]. f_equal. apply IH.
Qed.

(** A text without marker gives no task. *)
Lemma extractTasks_no_marker (n : nat) (s : jsstr) :
  (forall k, match_marker (skipn k s) = None) -> extractTasks n s = [].
Proof.
  intros H. now rewrite extractTasks_eq, (exec_no_marker _ H).
Qed.

Lemma extractTasks_fields (n1 n2 : nat) (s : jsstr) :
  List.map fields (extractTasks n1 s) = List.map fields (extractTasks n2 s).
Proof. apply extract_loop_fields. Qed.

(** The objects of the array are new: their references count up from
    [n]. *)
Lemma extract_loop_refs (fuel n : nat) (s : jsstr) :
  List.map ref (extract_loop fuel n s)
  = seq n (length (extract_loop fuel n s)).
Proof.
  revert n s. induction fuel as [|fuel IH]; intros n s; [reflexivity|].
  cbn [extract_loop]. destruct (exec s) as [m|]; [|reflexivity].
  cbn [List.map length seq ref]. f_equal. apply IH.
Qed.

Lemma extractTasks_refs (n : nat) (s : jsstr) :
  List.map ref (extractTasks n s) = seq n (length (extractTasks n s)).
Proof. apply extract_loop_refs. Qed.

Lemma reminderText_of_eq (g1 : jsstr) :
  reminderText_of g1 =
  if startsWith (str "- [ ]") (trim g1)
  then trim (skipn 5 (trim g1))
  else trim g1.
Proof.
  unfold reminderText_of, checkbox.
  destruct (startsWith (str "- [ ]") (trim g1)) eqn:E; [|reflexivity].
  now rewrite (replace_at_head _ _ _ E).
Qed.

Lemma reminderText_of_infix (g1 : jsstr) : infix (reminderText_of g1) g1.
Proof.
  rewrite reminderText_of_eq. destruct (startsWith _ _).
  - eapply infix_trans; [apply trim_infix|].
    eapply infix_trans; [apply skipn_infix | apply trim_infix].
  - apply trim_infix.
Qed.

Lemma last_line_suffix (b : jsstr) : exists a, b = a ++ last_line b.
Proof.
  induction b as [|c b IH]; [now exists []|]. cbn [last_line].
  destruct (existsb is_line_terminator (c :: b)); [|now exists []].
  destruct IH as [a Ha]. exists (c :: a). cbn [app]. now f_equal.
Qed.

Lemma last_line_no_terminator (b : jsstr) :
  Forall (fun c => is_line_terminator c = false) (last_line b).
Proof.
  induction b as [|c b IH]; [constructor|]. cbn [last_line].
  destruct (existsb is_line_terminator (c :: b)) eqn:E; [assumption|].
  apply Forall_forall. intros x Hx.
  destruct (is_line_terminator x) eqn:Ex; [|reflexivity].
  assert (existsb is_line_terminator (c :: b) = true) as E'
    by (apply existsb_exists; now exists x).
  congruence.
Qed.

Lemma extract_loop_no_terminator (fuel n : nat) (s : jsstr) :
  Forall (fun t => Forall (fun c => is_line_terminator c = false) (content t))
         (extract_loop fuel n s).
Proof.
  revert n s. induction fuel as [|fuel IH]; intros n s; [constructor|].
  cbn [extract_loop]. destruct (exec s) as [m|] eqn:E; [|constructor].
  constructor; [|apply IH]. cbn [content].
  destruct (exec_inv _ E) as (_ & _ & _ & Hg).
  eapply infix_Forall; [apply reminderText_of_infix | exact Hg].
Qed.

End Parser.

(* ================================================================== *)
(** ** Markers do not overlap *)

Lemma match_marker_head (c : N) (s : jsstr) :
  c <> 40%N -> match_marker (c :: s) = None.
Proof.
  intros Hc. unfold match_marker. cbn.
  now destruct (N.eqb_spec c 40).
Qed.

Lemma match_seq_Forall (P : N -> Prop) (p : list atom) (s m r : jsstr) :
  Forall (fun a => forall c, atom_matches a c = true -> P c) p ->
  match_seq p s = Some (m, r) -> Forall P m.
Proof.
  intros Hp. revert s m r.
  induction Hp as [|a p Ha _ IH]; intros s m r; cbn [match_seq].
  - intros [= <- _]. constructor.
  - destruct s as [|c s]; [discriminate|].
    destruct (atom_matches a c) eqn:E; [|discriminate].
    destruct (match_seq p s) as [[m' r']|] eqn:E'; [|discriminate].
    intros [= <- _]. constructor; [now apply Ha | eapply IH, E'].
Qed.

Lemma payload_no_paren (p : jsstr) :
  is_payload p -> Forall (fun c => c <> 40%N) p.
Proof.
  intros Hp. eapply match_seq_Forall; [|exact Hp].
  unfold payload, digits, lits. cbn.
  repeat (apply Forall_cons; [|]); try apply Forall_nil; intros c; cbn;
    rewrite ?andb_true_iff, ?N.leb_le, ?N.eqb_eq; lia.
Qed.

Lemma marker_tail_no_paren (p : jsstr) :
  is_payload p -> Forall (fun c => c <> 40%N) (tl (marker_text p)).
Proof.
  intros Hp. unfold marker_text. cbn [str list_ascii_of_string List.map app tl].
  repeat (constructor; [discriminate|]).
  apply Forall_app. split; [now apply payload_no_paren|].
  repeat constructor; discriminate.
Qed.

(** No marker starts inside a marker. *)
Lemma marker_no_overlap (p r : jsstr) (k : nat) :
  is_payload p -> 0 < k < 26 ->
  match_marker (skipn k (marker_text p ++ r)) = None.
Proof.
  intros Hp Hk.
  pose proof (marker_tail_no_paren Hp) as Ht.
  pose proof (marker_text_length Hp) as Hl.
  destruct (marker_text p) as [|c0 t]; [discriminate|].
  cbn [tl length] in *. destruct k as [|k]; [lia|].
  cbn [app skipn]. rewrite skipn_app.
  destruct (skipn k t) as [|c t'] eqn:E.
  - apply (f_equal (@length N)) in E. rewrite length_skipn in E.
    cbn [length] in E. lia.
  - cbn [app]. apply match_marker_head.
    rewrite Forall_forall in Ht. apply Ht.
    rewrite <- (firstn_skipn k t), E. apply in_or_app. right. now left.
Qed.

(** Conjunctions, and closed goals settled by evaluation. *)
Ltac conjuncts := repeat match goal with |- _ /\ _ => split end.
Ltac evaluate := vm_compute; reflexivity.

(** Projections of updated worlds. *)
Ltac world_fields :=
  cbn [settings notifiedTasks taskCache dataFile heapTop sent posted warned
       set_settings set_notifiedTasks set_taskCache set_dataFile set_heapTop
       set_sent set_posted set_warned] in *.

(* ================================================================== *)
(** ** Sets of strings *)

Lemma Set_add_In (x y : jsstr) (l : list jsstr) :
  In y (Set_add x l) <-> In y l \/ y = x.
Proof.
  unfold Set_add. destruct (mem x l) eqn:E.
  - apply mem_In in E. split; [now left | intros [H | ->]; assumption].
  - rewrite in_app_iff. cbn. intuition auto.
Qed.

Lemma Set_add_incl (x : jsstr) (l : list jsstr) : incl l (Set_add x l).
Proof. intros y Hy. apply Set_add_In. now left. Qed.

Lemma fold_Set_add_In (a acc : list jsstr) (y : jsstr) :
  In y (fold_left (fun s x => Set_add x s) a acc) <-> In y acc \/ In y a.
Proof.
  revert acc. induction a as [|x a IH]; intros acc; cbn [fold_left].
  - cbn. tauto.
  - rewrite IH, Set_add_In. cbn. split; intros H; intuition auto.
Qed.

Lemma Set_of_array_In (a : list jsstr) (y : jsstr) :
  In y (Set_of_array a) <-> In y a.
Proof. unfold Set_of_array. rewrite fold_Set_add_In. cbn. tauto. Qed.

(* ================================================================== *)
(** ** What each method leaves alone *)

Section Frames.

Context {host : Host}.

Lemma addToTaskCache_frame (file : TFile) (w : World) :
  let w' := addToTaskCache file w in
  settings w' = settings w /\ notifiedTasks w' = notifiedTasks w
  /\ dataFile w' = dataFile w /\ sent w' = sent w
  /\ posted w' = posted w /\ warned w' = warned w.
Proof.
  unfold addToTaskCache. destruct (negb _); cbn; now repeat split.
Qed.

Lemma fold_addToTaskCache_frame (files : list TFile) (w : World) :
  let w' := fold_left (fun w file => addToTaskCache file w) files w in
  settings w' = settings w /\ notifiedTasks w' = notifiedTasks w
  /\ dataFile w' = dataFile w /\ sent w' = sent w
  /\ posted w' = posted w /\ warned w' = warned w.
Proof.
  revert w. induction files as [|f files IH]; intros w; cbn [fold_left].
  - now repeat split.
  - destruct (IH (addToTaskCache f w)) as (A & B & C & D & E & F).
    destruct (addToTaskCache_frame f w) as (A' & B' & C' & D' & E' & F').
    cbv zeta in *. repeat split; congruence.
Qed.

Lemma initializeTaskCache_frame (vault : list TFile) (w : World) :
  let w' := initializeTaskCache vault w in
  settings w' = settings w /\ notifiedTasks w' = notifiedTasks w
  /\ dataFile w' = dataFile w /\ sent w' = sent w
  /\ posted w' = posted w /\ warned w' = warned w.
Proof.
  unfold initializeTaskCache.
  apply (fold_addToTaskCache_frame (getMarkdownFiles vault) (set_taskCache [] w)).
Qed.

Lemma sendNotification_sent (reminderText dateTime : jsstr) (w : World) :
  let w' := sendNotification reminderText dateTime w in
  sent w' = sent w ++ [(reminderText, dateTime)]
  /\ notifiedTasks w' = notifiedTasks w /\ dataFile w' = dataFile w
  /\ taskCache w' = taskCache w /\ settings w' = settings w
  /\ heapTop w' = heapTop w.
Proof.
  unfold sendNotification. cbn.
  destruct (blank _); [now repeat split|].
  destruct (Data.webhookUrl (settings w)); now repeat split.
Qed.

(** The two ways [checkTask] returns, and the one way it throws. *)
Lemma checkTask_fires (now t : Z) (content : jsstr) (w : World) :
  (t <= now)%Z ->
  ~ In (taskId_of content (isoString t)) (notifiedTasks w) ->
  checkTask now content (TimeValue t) w
  = Returned
      (sendNotification content (isoString t)
         (saveNotifiedTasks
            (set_notifiedTasks
               (Set_add (taskId_of content (isoString t)) (notifiedTasks w))
               w))).
Proof.
  intros Hle Hnot. unfold checkTask. cbn [toISOString Date_le].
  apply Z.leb_le in Hle. apply mem_false in Hnot. now rewrite Hle, Hnot.
Qed.

Lemma checkTask_future (now t : Z) (content : jsstr) (w : World) :
  (now < t)%Z -> checkTask now content (TimeValue t) w = Returned w.
Proof.
  intros Hlt. unfold checkTask. cbn [toISOString Date_le].
  apply Z.leb_gt in Hlt. now rewrite Hlt.
Qed.

Lemma checkTask_notified (now t : Z) (content : jsstr) (w : World) :
  In (taskId_of content (isoString t)) (notifiedTasks w) ->
  checkTask now content (TimeValue t) w = Returned w.
Proof.
  intros Hin. unfold checkTask. cbn [toISOString].
  apply mem_In in Hin. rewrite Hin. now rewrite andb_false_r.
Qed.

Lemma checkTask_invalid (now : Z) (content : jsstr) (w : World) :
  checkTask now content InvalidDate w = Thrown w.
Proof. reflexivity. Qed.

(** Every way [checkTask] can end. *)
Lemma checkTask_cases (now : Z) (content : jsstr) (d : Date) (w : World) :
  checkTask now content d w = Thrown w
  \/ checkTask now content d w = Returned w
  \/ exists t,
       d = TimeValue t /\ (t <= now)%Z
       /\ ~ In (taskId_of content (isoString t)) (notifiedTasks w)
       /\ checkTask now content d w
          = Returned
              (sendNotification content (isoString t)
                 (saveNotifiedTasks
                    (set_notifiedTasks
                       (Set_add (taskId_of content (isoString t))
                                (notifiedTasks w)) w))).
Proof.
  destruct d as [|t]; [now left|]. right.
  destruct (Z.le_gt_cases t now) as [Hle | Hgt].
  - destruct (mem (taskId_of content (isoString t)) (notifiedTasks w)) eqn:E.
    + left. apply checkTask_notified. now apply mem_In.
    + right. exists t. apply mem_false in E.
      repeat split; try assumption. now apply checkTask_fires.
  - left. now apply checkTask_future.
Qed.

End Frames.

(* ================================================================== *)
(** ** The notified set guards the notifications *)

Section Guard.

Context {host : Host}.

Lemma sent_ids_app (w : World) (c iso : jsstr) (l : list (jsstr * jsstr)) :
  sent w = l ++ [(c, iso)] ->
  sent_ids w = ids_of l ++ [taskId_of c iso].
Proof. unfold sent_ids, ids_of. intros ->. now rewrite map_app. Qed.

Lemma NoDup_snoc (A : Type) (l : list A) (x : A) :
  NoDup l -> ~ In x l -> NoDup (l ++ [x]).
Proof.
  intros Hl Hx. induction Hl as [|y l Hy Hl IH]; cbn.
  - constructor; [intros [] | constructor].
  - constructor.
    + rewrite in_app_iff. intros [H | [-> | []]]; [now apply Hy|].
      apply Hx. now left.
    + apply IH. intros H. apply Hx. now right.
Qed.

Lemma checkTask_recorded (now : Z) (content : jsstr) (d : Date) (w : World) :
  recorded w -> recorded (world_of (checkTask now content d w)).
Proof.
  intros [Hincl Hnd].
  destruct (checkTask_cases now content d w) as [-> | [-> | (t & -> & _ & Hnot & ->)]];
    [now split | now split |].
  cbn [world_of].
  match goal with |- recorded (sendNotification ?c ?i ?w0) =>
    destruct (sendNotification_sent c i w0) as (Hs & Hn & _) end.
  cbv zeta in Hs, Hn. cbn in Hs, Hn.
  unfold recorded. erewrite sent_ids_app by exact Hs. rewrite Hn.
  fold (sent_ids w). split.
  - intros x Hx. apply Set_add_In. apply in_app_iff in Hx as [Hx | [<- | []]];
      [left; now apply Hincl | now right].
  - apply NoDup_snoc; [assumption|]. intros Hin. apply Hnot. now apply Hincl.
Qed.

Lemma checkTask_keeps_notified (now : Z) (content : jsstr) (d : Date)
  (w : World) :
  incl (notifiedTasks w) (notifiedTasks (world_of (checkTask now content d w))).
Proof.
  destruct (checkTask_cases now content d w) as [-> | [-> | (t & -> & _ & _ & ->)]];
    [apply incl_refl | apply incl_refl |].
  cbn [world_of].
  match goal with |- incl _ (notifiedTasks (sendNotification ?c ?i ?w0)) =>
    destruct (sendNotification_sent c i w0) as (_ & Hn & _) end.
  cbv zeta in Hn. rewrite Hn. cbn. apply Set_add_incl.
Qed.

Lemma forEach_recorded (clock : nat -> Z) (k : nat) (tasks : list Task)
  (w : World) :
  recorded w -> recorded (world_of (forEach_checkTask clock k tasks w)).
Proof.
  revert k w. induction tasks as [|t tasks IH]; intros k w Hr; [exact Hr|].
  cbn [forEach_checkTask].
  pose proof (checkTask_recorded (clock k) (content t) (dueDateTime t) Hr) as H.
  destruct (checkTask _ _ _ w) as [w' | w']; [now apply IH | exact H].
Qed.

Lemma forEach_keeps_notified (clock : nat -> Z) (k : nat)
  (tasks : list Task) (w : World) :
  incl (notifiedTasks w)
       (notifiedTasks (world_of (forEach_checkTask clock k tasks w))).
Proof.
  revert k w. induction tasks as [|t tasks IH]; intros k w; [apply incl_refl|].
  cbn [forEach_checkTask].
  pose proof (checkTask_keeps_notified (clock k) (content t) (dueDateTime t) w) as H.
  destruct (checkTask _ _ _ w) as [w' | w']; [|exact H].
  eapply incl_tran; [exact H | apply IH].
Qed.

(** What a restart makes of the two lists. *)
Lemma onload_notified (vault : list TFile) (w : World) :
  let w' := onload vault (newInstance w) in
  sent w' = sent w
  /\ forall x, In x (notifiedTasks w') <-> In x (persisted w).
Proof.
  unfold onload.
  destruct (initializeTaskCache_frame vault
              (loadNotifiedTasks (loadSettings (newInstance w))))
    as (_ & Hn & _ & Hs & _).
  cbv zeta in *. rewrite Hn, Hs. unfold loadNotifiedTasks, persisted. cbn.
  destruct (dataFile w) as [d|]; [|split; [reflexivity | tauto]].
  destruct (Data.notifiedTasks d) as [a|]; cbn; [|split; [reflexivity | tauto]].
  split; [reflexivity | intros x; apply Set_of_array_In].
Qed.

Lemma step_recorded (w : World) (e : Event) :
  match e with Restart _ => intact w | _ => True end ->
  recorded w -> recorded (step w e).
Proof.
  intros Hi Hr. destruct e as [clock | file | value | vault]; cbn [step].
  - now apply forEach_recorded.
  - unfold handleFileChange, recorded, sent_ids.
    destruct (addToTaskCache_frame file w) as (_ & Hn & _ & Hs & _).
    cbv zeta in *. rewrite Hn, Hs. exact Hr.
  - exact Hr.
  - destruct (onload_notified vault w) as [Hs Hn]. cbv zeta in *.
    destruct Hr as [Hincl Hnd]. unfold recorded, sent_ids. rewrite Hs. split.
    + intros x Hx. apply Hn, Hi, Hincl, Hx.
    + exact Hnd.
Qed.

Lemma step_keeps_notified (w : World) (e : Event) :
  match e with Restart _ => intact w | _ => True end ->
  incl (notifiedTasks w) (notifiedTasks (step w e)).
Proof.
  intros Hi. destruct e as [clock | file | value | vault]; cbn [step].
  - apply forEach_keeps_notified.
  - unfold handleFileChange.
    destruct (addToTaskCache_frame file w) as (_ & Hn & _).
    cbv zeta in *. rewrite Hn. apply incl_refl.
  - apply incl_refl.
  - destruct (onload_notified vault w) as [_ Hn]. cbv zeta in *.
    intros x Hx. apply Hn, Hi, Hx.
Qed.

Lemma run_recorded (events : list Event) (w : World) :
  intact_at_restarts w events -> recorded w -> recorded (run w events).
Proof.
  revert w. induction events as [|e events IH]; intros w Hi Hr; [exact Hr|].
  destruct Hi as [He Hi]. cbn [run fold_left].
  apply IH; [exact Hi | now apply step_recorded].
Qed.

Lemma run_keeps_notified (events : list Event) (w : World) :
  intact_at_restarts w events ->
  incl (notifiedTasks w) (notifiedTasks (run w events)).
Proof.
  revert w. induction events as [|e events IH]; intros w Hi; [apply incl_refl|].
  destruct Hi as [He Hi]. cbn [run fold_left].
  eapply incl_tran; [apply (step_keeps_notified w e He) | apply (IH _ Hi)].
Qed.

Lemma intact_at_restarts_app (pre post : list Event) (w : World) :
  intact_at_restarts w (pre ++ post) ->
  intact_at_restarts w pre /\ intact_at_restarts (run w pre) post.
Proof.
  revert w. induction pre as [|e pre IH]; intros w; cbn [app].
  - intros H. now split.
  - intros [He H]. destruct (IH _ H) as [H1 H2]. now repeat split.
Qed.

Lemma run_app (pre post : list Event) (w : World) :
  run w (pre ++ post) = run (run w pre) post.
Proof. apply fold_left_app. Qed.

Lemma boot_recorded (data : option Data.t) (vault : list TFile) :
  recorded (boot data vault).
Proof.
  unfold boot, onload.
  match goal with |- recorded (initializeTaskCache _ ?w0) =>
    destruct (initializeTaskCache_frame vault w0) as (_ & _ & _ & Hs & _) end.
  cbv zeta in Hs. unfold recorded, sent_ids. rewrite Hs.
  unfold loadNotifiedTasks. cbn.
  destruct data as [d|]; [destruct (Data.notifiedTasks d)|]; cbn;
    (split; [intros x [] | constructor]).
Qed.

End Guard.

(* ================================================================== *)
(** ** The task cache *)

Unset Implicit Arguments.

Section Cache.

Context {host : Host}.

Lemma TaskSet_add_new (t : Task) (l : list Task) :
  Forall (fun u => ref u < ref t) l -> TaskSet_add t l = l ++ [t].
Proof.
  intros H. unfold TaskSet_add.
  destruct (existsb _ l) eqn:E; [|reflexivity].
  apply existsb_exists in E as (u & Hu & E). apply Nat.eqb_eq in E.
  rewrite Forall_forall in H. specialize (H u Hu). lia.
Qed.

Lemma fold_TaskSet_add_new (tasks cache : list Task) (n : nat) :
  Forall (fun u => ref u < n) cache ->
  List.map ref tasks = seq n (length tasks) ->
  fold_left (fun cache task => TaskSet_add task cache) tasks cache
  = cache ++ tasks
  /\ Forall (fun u => ref u < n + length tasks) (cache ++ tasks).
Proof.
  revert cache n. induction tasks as [|t tasks IH]; intros cache n Hc Hr.
  - cbn. rewrite app_nil_r, Nat.add_0_r. now split.
  - cbn [List.map length seq] in Hr. injection Hr as Ht Hr.
    cbn [fold_left]. rewrite TaskSet_add_new by (now rewrite Ht).
    destruct (IH (cache ++ [t]) (S n)) as [E F]; [|exact Hr|].
    + apply Forall_app. split.
      * eapply Forall_impl; [|exact Hc]. cbn. intros; lia.
      * constructor; [lia | constructor].
    + rewrite <- app_assoc in E, F. cbn [app] in E, F. split; [exact E|].
      cbn [length]. now replace (n + S (length tasks)) with (S n + length tasks) by lia.
Qed.

(** [addToTaskCache] on a markdown file appends the new objects. *)
Lemma addToTaskCache_md (file : TFile) (w : World) :
  cache_allocated w ->
  extension file = str "md" ->
  taskCache (addToTaskCache file w)
  = taskCache w ++ extractTasks (heapTop w) (text file)
  /\ cache_allocated (addToTaskCache file w).
Proof.
  intros Hc Hmd. unfold addToTaskCache.
  apply eqb_str_true in Hmd. rewrite Hmd. cbn [negb].
  destruct (fold_TaskSet_add_new (extractTasks (heapTop w) (text file))
              (taskCache w) (heapTop w) Hc
              (extractTasks_refs (heapTop w) (text file))) as [E F].
  unfold cache_allocated. world_fields. rewrite E. now split.
Qed.

Lemma addToTaskCache_other (file : TFile) (w : World) :
  extension file <> str "md" -> addToTaskCache file w = w.
Proof.
  intros Hmd. unfold addToTaskCache.
  destruct (eqb_str (extension file) (str "md")) eqn:E; [|reflexivity].
  now apply eqb_str_true in E.
Qed.

Lemma addToTaskCache_allocated (file : TFile) (w : World) :
  cache_allocated w -> cache_allocated (addToTaskCache file w).
Proof.
  intros Hc.
  destruct (list_eq_dec N.eq_dec (extension file) (str "md")) as [E | E].
  - now apply addToTaskCache_md.
  - now rewrite addToTaskCache_other.
Qed.

Lemma fold_addToTaskCache_allocated (files : list TFile) (w : World) :
  cache_allocated w ->
  cache_allocated (fold_left (fun w file => addToTaskCache file w) files w).
Proof.
  revert w. induction files as [|f files IH]; intros w Hc; [exact Hc|].
  cbn [fold_left]. now apply IH, addToTaskCache_allocated.
Qed.

Lemma fold_addToTaskCache_fields (files : list TFile) (w : World) :
  cache_allocated w ->
  Forall (fun f => extension f = str "md") files ->
  List.map fields
    (taskCache (fold_left (fun w file => addToTaskCache file w) files w))
  = List.map fields (taskCache w)
    ++ flat_map (fun f => List.map fields (extractTasks 0 (text f))) files.
Proof.
  revert w. induction files as [|f files IH]; intros w Hc Hmd.
  - cbn. now rewrite app_nil_r.
  - apply Forall_cons_iff in Hmd as [Hf Hmd]. cbn [fold_left flat_map].
    destruct (addToTaskCache_md f w Hc Hf) as [E Hc'].
    rewrite (IH _ Hc' Hmd), E, map_app, <- app_assoc.
    now rewrite (extractTasks_fields (heapTop w) 0).
Qed.

Lemma getMarkdownFiles_md (vault : list TFile) :
  Forall (fun f => extension f = str "md") (getMarkdownFiles vault).
Proof.
  apply Forall_forall. intros f Hf. unfold getMarkdownFiles in Hf.
  apply filter_In in Hf as [_ Hf]. now apply eqb_str_true.
Qed.

Lemma initializeTaskCache_allocated (vault : list TFile) (w : World) :
  cache_allocated (initializeTaskCache vault w).
Proof.
  unfold initializeTaskCache. apply fold_addToTaskCache_allocated.
  unfold cache_allocated. cbn. constructor.
Qed.

Lemma initializeTaskCache_fields (vault : list TFile) (w : World) :
  List.map fields (taskCache (initializeTaskCache vault w))
  = flat_map (fun f => List.map fields (extractTasks 0 (text f)))
             (getMarkdownFiles vault).
Proof.
  unfold initializeTaskCache.
  rewrite fold_addToTaskCache_fields; [reflexivity | | apply getMarkdownFiles_md].
  unfold cache_allocated. cbn. constructor.
Qed.

Lemma checkTask_cache (now : Z) (content : jsstr) (d : Date) (w : World) :
  let w' := world_of (checkTask now content d w) in
  taskCache w' = taskCache w /\ heapTop w' = heapTop w.
Proof.
  destruct (checkTask_cases now content d w) as [-> | [-> | (t & -> & _ & _ & ->)]];
    [now split | now split |].
  cbn [world_of].
  match goal with |- context [sendNotification ?c ?i ?w0] =>
    destruct (sendNotification_sent c i w0) as (_ & _ & _ & Hc & _ & Hh) end.
  cbv zeta in *. now rewrite Hc, Hh.
Qed.

Lemma forEach_cache (clock : nat -> Z) (k : nat) (tasks : list Task)
  (w : World) :
  let w' := world_of (forEach_checkTask clock k tasks w) in
  taskCache w' = taskCache w /\ heapTop w' = heapTop w.
Proof.
  revert k w. induction tasks as [|t tasks IH]; intros k w; [now split|].
  cbn [forEach_checkTask].
  pose proof (checkTask_cache (clock k) (content t) (dueDateTime t) w) as H.
  destruct (checkTask _ _ _ w) as [w1 | w1]; cbn [world_of] in *.
  - destruct (IH (S k) w1) as [A B]. cbv zeta in *.
    destruct H as [C D]. split; congruence.
  - exact H.
Qed.

Lemma step_allocated (w : World) (e : Event) :
  cache_allocated w -> cache_allocated (step w e).
Proof.
  intros Hc. destruct e as [clock | file | value | vault]; cbn [step].
  - destruct (forEach_cache clock 0 (taskCache w) w) as [A B].
    cbv zeta in *. unfold cache_allocated, checkTasks. now rewrite A, B.
  - now apply addToTaskCache_allocated.
  - exact Hc.
  - apply initializeTaskCache_allocated.
Qed.

(** In every world the plugin reaches, the objects of the cache were
    created before [heapTop]. *)
Lemma run_allocated (data : option Data.t) (vault : list TFile)
  (events : list Event) :
  cache_allocated (run (boot data vault) events).
Proof.
  unfold run. rewrite <- fold_left_rev_right.
  induction (rev events) as [|e l IH]; cbn [fold_right].
  - apply initializeTaskCache_allocated.
  - now apply step_allocated.
Qed.

End Cache.

(* ================================================================== *)
(** ** The parser: what [extractTasks] returns *)

(** C5, as amended.  Take a note [b ++ marker ++ r] whose first marker
    is the one shown, with payload [p].  The first task of the note has
    for content the last line of [b], the text between the start of the
    note and the marker, without anything up to the last line
    terminator of [b]: that line trimmed, and, when it then starts with
    ["- [ ]"], with these five code units removed and trimmed again.
    The content is a piece of [b].  The tasks that follow are those of
    [r], the text after the closing parenthesis of the marker, so the
    same holds for the next marker with [r] in place of the note, and
    no content reaches back to the closing parenthesis of the marker
    before it.  No marker starts inside the marker, so none is passed
    over. *)
Theorem extractTasks_content_of_marker (host : Host) (n : nat)
  (b p r : jsstr) :
  is_payload p ->
  marker_free (length b) (b ++ marker_text p ++ r) ->
  extractTasks n (b ++ marker_text p ++ r)
  = mkTask n (reminderText_of (last_line b)) (Date_parse p)
    :: extractTasks (S n) r
  /\ reminderText_of (last_line b)
     = (if startsWith (str "- [ ]") (trim (last_line b))
        then trim (skipn 5 (trim (last_line b)))
        else trim (last_line b))
  /\ infix (reminderText_of (last_line b)) b
  /\ (forall k, 0 < k < 26 ->
      match_marker (skipn (length b + k) (b ++ marker_text p ++ r)) = None).
Proof.
  intros Hp Hfree. repeat split.
  - rewrite extractTasks_eq, (exec_first_marker b r Hp Hfree). reflexivity.
  - apply reminderText_of_eq.
  - eapply infix_trans; [apply reminderText_of_infix|].
    destruct (last_line_suffix b) as [a Ha]. exists a, [].
    now rewrite app_nil_r.
  - intros k Hk. rewrite skipn_app, skipn_all2 by lia.
    replace (length b + k - length b) with k by lia.
    now apply marker_no_overlap.
Qed.

Lemma second_line_first_marker :
  is_payload Example.payload1
  /\ marker_free (length Example.before1) Example.second_line.
Proof.
  split; [evaluate|].
  intros k Hk. change (k < 8) in Hk.
  do 8 (destruct k as [|k]; [evaluate|]). lia.
Qed.

Lemma two_lines_first_marker :
  is_payload Example.payload1
  /\ marker_free (length Example.before1) Example.two_lines.
Proof.
  split; [evaluate|].
  intros k Hk. change (k < 8) in Hk.
  do 8 (destruct k as [|k]; [evaluate|]). lia.
Qed.

(** The theorem at the note ["foo\nbar (discord@2025-01-01 09:00) baz
    (discord@2025-01-02 10:00)"]. *)
Lemma extractTasks_content_of_marker_witness :
  is_payload Example.payload1
  /\ marker_free (length Example.before1) Example.two_lines
  /\ @extractTasks Utc.host 0 Example.two_lines
     = mkTask 0 (str "bar") (TimeValue Example.jan1)
       :: @extractTasks Utc.host 1 Example.after1.
Proof.
  destruct two_lines_first_marker as [Hp Hfree].
  split; [exact Hp|]. split; [exact Hfree|].
  destruct (extractTasks_content_of_marker Utc.host 0 Example.before1
              Example.payload1 Example.after1 Hp Hfree) as [E _].
  unfold Example.two_lines. rewrite E. evaluate.
Defined.

(** C5, as stated, fails.  In the note ["foo\nbar (discord@2025-01-01
    09:00)"] the marker is the first one, all text before it trimmed is
    ["foo\nbar"], and the content of the task is ["bar"]. *)
Lemma content_is_not_all_text_before_marker :
  is_payload Example.payload1
  /\ marker_free (length Example.before1) Example.second_line
  /\ List.map content (@extractTasks Utc.host 0 Example.second_line)
     = [str "bar"]
  /\ trim Example.before1 = str "foo" ++ Example.nl ++ str "bar"
  /\ List.map content (@extractTasks Utc.host 0 Example.second_line)
     <> [trim Example.before1].
Proof.
  destruct second_line_first_marker as [Hp Hfree].
  conjuncts; try assumption; try evaluate.
  vm_compute. discriminate.
Qed.

(** C6.  The note ["- [ ] Buy milk (discord@2025-01-01 09:00)"] gives
    one task of content ["Buy milk"], the note ["- [x] Buy milk
    (discord@2025-01-01 09:00)"] one task of content ["- [x] Buy
    milk"]; in general the content of a task is made from the text
    captured before its marker by trimming it and, exactly when the
    trimmed text starts with ["- [ ]"], removing these five code units
    and trimming again. *)
Theorem checkbox_prefix_stripped (host : Host) (n : nat) :
  List.map content (extractTasks n Example.unchecked) = [str "Buy milk"]
  /\ List.map content (extractTasks n Example.checked)
     = [str "- [x] Buy milk"]
  /\ (forall s,
        extractTasks n s =
        match exec s with
        | None => []
        | Some m =>
            mkTask n (reminderText_of (group1 m)) (Date_parse (group3 m))
            :: extractTasks (S n) (rest m)
        end)
  /\ (forall g1,
        reminderText_of g1 =
        if startsWith (str "- [ ]") (trim g1)
        then trim (skipn 5 (trim g1))
        else trim g1).
Proof.
  split; [|split; [|split]].
  - vm_compute. reflexivity.
  - vm_compute. reflexivity.
  - intros s. apply extractTasks_eq.
  - apply reminderText_of_eq.
Qed.

(** C7.  Two runs of [extractTasks] on the same text, whatever
    references their new objects get, return arrays of the same length
    whose tasks have, position by position, the same content, the same
    due time and the same identity. *)
Theorem extractTasks_idempotent (host : Host) (n1 n2 : nat) (s : jsstr) :
  length (extractTasks n1 s) = length (extractTasks n2 s)
  /\ List.map fields (extractTasks n1 s) = List.map fields (extractTasks n2 s)
  /\ List.map identity (extractTasks n1 s)
     = List.map identity (extractTasks n2 s).
Proof.
  pose proof (extractTasks_fields n1 n2 s) as F.
  repeat split.
  - apply (f_equal (@length _)) in F. now rewrite !length_map in F.
  - exact F.
  - apply (f_equal (List.map (fun f => option_map (taskId_of (fst f))
                                         (toISOString (snd f))))) in F.
    rewrite !map_map in F. exact F.
Qed.

(** C10.  No content of a task returned by [extractTasks] holds a line
    terminator, a newline in particular. *)
Theorem extractTasks_content_single_line (host : Host) (n : nat) (s : jsstr) :
  Forall (fun t => Forall (fun c => is_line_terminator c = false) (content t))
         (extractTasks n s)
  /\ Forall (fun t => ~ In 10%N (content t)) (extractTasks n s).
Proof.
  pose proof (extract_loop_no_terminator (S (length s)) n s) as H.
  split; [exact H|]. eapply Forall_impl; [|exact H].
  intros t Ht Hin. rewrite Forall_forall in Ht.
  specialize (Ht _ Hin). discriminate.
Qed.

(* ================================================================== *)
(** ** The evaluator: sweeps, restarts and the notified set *)

(** C1.  Let the plugin be loaded and then go through any events:
    sweeps, changes of notes, edits of the webhook URL, restarts.  If
    the persisted notified set is intact at every restart, then
    [sendNotification] was called at most once for any identity; an
    identity that is in the notified set at one point of the run is in
    it at every later point; and a call of [checkTask] calls
    [sendNotification] only for the identity of its task and only when
    that identity is not in the notified set. *)
Theorem notified_at_most_once (host : Host) (data : option Data.t)
  (vault : list TFile) (events : list Event) :
  intact_at_restarts (boot data vault) events ->
  (forall id,
     count_occ (list_eq_dec N.eq_dec)
               (sent_ids (run (boot data vault) events)) id <= 1)
  /\ (forall pre post,
        events = pre ++ post ->
        incl (notifiedTasks (run (boot data vault) pre))
             (notifiedTasks (run (boot data vault) events)))
  /\ (forall now content dueDateTime w,
        sent (world_of (checkTask now content dueDateTime w)) = sent w
        \/ exists iso,
             toISOString dueDateTime = Some iso
             /\ ~ In (taskId_of content iso) (notifiedTasks w)
             /\ sent (world_of (checkTask now content dueDateTime w))
                = sent w ++ [(content, iso)]).
Proof.
  intros Hi. split; [|split].
  - apply NoDup_count_occ.
    apply run_recorded; [exact Hi | apply boot_recorded].
  - intros pre post ->. rewrite run_app.
    apply intact_at_restarts_app in Hi as [_ Hi].
    now apply run_keeps_notified.
  - intros now content d w.
    destruct (checkTask_cases now content d w)
      as [-> | [-> | (t & -> & _ & Hnot & ->)]]; [now left | now left |].
    right. exists (isoString t). cbn [world_of toISOString].
    repeat split; [exact Hnot|].
    match goal with |- sent (sendNotification ?c ?i ?w0) = _ =>
      destruct (sendNotification_sent c i w0) as (Hs & _) end.
    exact Hs.
Qed.

(** The theorem at a run of one note: a sweep on 2025-01-02 that
    notifies its task, a restart, and a second sweep. *)
Lemma notified_at_most_once_witness :
  @intact_at_restarts Utc.host (@boot Utc.host None [Example.milk])
    Example.sweep_restart_sweep
  /\ sent_ids
       (@run Utc.host (@boot Utc.host None [Example.milk])
          Example.sweep_restart_sweep)
     = [str "Buy milk-2025-01-01T09:00:00.000Z"]
  /\ forall id,
       count_occ (list_eq_dec N.eq_dec)
         (sent_ids
            (@run Utc.host (@boot Utc.host None [Example.milk])
               Example.sweep_restart_sweep)) id <= 1.
Proof.
  assert (@intact_at_restarts Utc.host (@boot Utc.host None [Example.milk])
            Example.sweep_restart_sweep) as Hi.
  { unfold Example.sweep_restart_sweep. cbn [intact_at_restarts].
    conjuncts; try exact I. unfold intact. vm_compute.
    intros x Hx. exact Hx. }
  split; [exact Hi|]. split; [evaluate|].
  destruct (notified_at_most_once Utc.host None [Example.milk]
              Example.sweep_restart_sweep Hi) as [H _].
  exact H.
Defined.

(** One call of [checkTask] on a task whose due time is valid.  This is
    the decision made for a cached task when a sweep calls [checkTask]
    on it. *)
Lemma checkTask_due_time (host : Host) (now t : Z) (content : jsstr)
  (w : World) :
  ((now < t)%Z -> checkTask now content (TimeValue t) w = Returned w)
  /\ ((t <= now)%Z ->
      ~ In (taskId_of content (isoString t)) (notifiedTasks w) ->
      exists w',
        checkTask now content (TimeValue t) w = Returned w'
        /\ sent w' = sent w ++ [(content, isoString t)]
        /\ notifiedTasks w'
           = notifiedTasks w ++ [taskId_of content (isoString t)]
        /\ persisted w' = notifiedTasks w').
Proof.
  split; [apply checkTask_future|]. intros Hle Hnot.
  eexists. split; [now apply checkTask_fires|].
  match goal with |- context [sendNotification ?c ?i ?w0] =>
    destruct (sendNotification_sent c i w0) as (Hs & Hn & Hd & _) end.
  cbv zeta in *. unfold persisted. rewrite Hs, Hn, Hd. world_fields.
  unfold saveNotifiedTasks. world_fields. cbn [Data.notifiedTasks].
  unfold Set_add. apply mem_false in Hnot. rewrite Hnot. now repeat split.
Qed.

(** The test of [sendNotification] holds exactly when the webhook URL
    is unset or made of white space only. *)
Lemma blank_iff (webhookUrl : option jsstr) :
  blank webhookUrl = true
  <-> webhookUrl = None
      \/ exists u, webhookUrl = Some u
                   /\ Forall (fun c => is_trimmed_char c = true) u.
Proof.
  destruct webhookUrl as [u|]; cbn [blank]; [|split; [now left | reflexivity]].
  rewrite orb_true_iff, !eqb_str_true, trim_nil. split.
  - intros [-> | H]; right; exists u + exists []; split; auto.
  - intros [H | (u' & [= <-] & H)]; [discriminate | now right].
Qed.

(** C8.  With the webhook URL unset or made of white space only, a
    call of [checkTask] on a due task that was not notified records the
    identity in the notified set and in the data file, and
    [sendNotification], called once, makes no [requestUrl] call and
    writes one warning. *)
Theorem blank_webhook_still_recorded (host : Host) (now t : Z)
  (content : jsstr) (w : World) :
  (Data.webhookUrl (settings w) = None
   \/ exists u, Data.webhookUrl (settings w) = Some u
                /\ Forall (fun c => is_trimmed_char c = true) u) ->
  (t <= now)%Z ->
  ~ In (taskId_of content (isoString t)) (notifiedTasks w) ->
  exists w',
    checkTask now content (TimeValue t) w = Returned w'
    /\ In (taskId_of content (isoString t)) (notifiedTasks w')
    /\ In (taskId_of content (isoString t)) (persisted w')
    /\ sent w' = sent w ++ [(content, isoString t)]
    /\ posted w' = posted w
    /\ warned w' = S (warned w).
Proof.
  intros Hb Hle Hnot. apply blank_iff in Hb.
  eexists. split; [now apply checkTask_fires|].
  unfold sendNotification, saveNotifiedTasks, persisted. world_fields.
  rewrite Hb. world_fields. cbn [Data.notifiedTasks].
  repeat split; apply Set_add_In; now right.
Qed.

(** The theorem at a plugin loaded from a data file whose webhook URL
    is two spaces. *)
Lemma blank_webhook_still_recorded_witness :
  (Data.webhookUrl (settings (@boot Utc.host Example.spaces_only [Example.milk]))
   = None
   \/ exists u,
        Data.webhookUrl
          (settings (@boot Utc.host Example.spaces_only [Example.milk]))
        = Some u
        /\ Forall (fun c => is_trimmed_char c = true) u)
  /\ (Example.jan1 <= Example.jan2)%Z
  /\ ~ In (taskId_of (str "Buy milk") (Utc.iso Example.jan1))
          (notifiedTasks (@boot Utc.host Example.spaces_only [Example.milk]))
  /\ exists w',
       @checkTask Utc.host Example.jan2 (str "Buy milk")
         (TimeValue Example.jan1)
         (@boot Utc.host Example.spaces_only [Example.milk])
       = Returned w'
       /\ notifiedTasks w' = [str "Buy milk-2025-01-01T09:00:00.000Z"]
       /\ posted w' = []
       /\ warned w' = 1.
Proof.
  assert (Data.webhookUrl
            (settings (@boot Utc.host Example.spaces_only [Example.milk]))
          = None
          \/ exists u,
               Data.webhookUrl
                 (settings (@boot Utc.host Example.spaces_only [Example.milk]))
               = Some u
               /\ Forall (fun c => is_trimmed_char c = true) u) as Hb.
  { right. exists (str "  "). split; [evaluate|].
    repeat constructor. }
  assert (Example.jan1 <= Example.jan2)%Z as Hle by (vm_compute; discriminate).
  assert (~ In (taskId_of (str "Buy milk") (Utc.iso Example.jan1))
            (notifiedTasks (@boot Utc.host Example.spaces_only [Example.milk])))
    as Hnot by (vm_compute; intros H; exact H).
  repeat (split; [assumption|]).
  destruct (blank_webhook_still_recorded Utc.host Example.jan2 Example.jan1
              (str "Buy milk")
              (@boot Utc.host Example.spaces_only [Example.milk])
              Hb Hle Hnot) as (w' & E & _).
  exists w'. split; [exact E|].
  vm_compute in E. injection E as <-. conjuncts; evaluate.
Defined.

(* ================================================================== *)
(** ** A sweep over a cache of valid dates *)

Section Sweep.

Context {host : Host}.

Lemma checkTask_valid_cases (now t : Z) (content : jsstr) (w : World) :
  (checkTask now content (TimeValue t) w = Returned w
   /\ ((now < t)%Z \/ In (taskId_of content (isoString t)) (notifiedTasks w)))
  \/ ((t <= now)%Z
      /\ ~ In (taskId_of content (isoString t)) (notifiedTasks w)
      /\ exists w',
           checkTask now content (TimeValue t) w = Returned w'
           /\ sent w' = sent w ++ [(content, isoString t)]
           /\ notifiedTasks w'
              = notifiedTasks w ++ [taskId_of content (isoString t)]).
Proof.
  destruct (Z.le_gt_cases t now) as [Hle | Hgt].
  - destruct (mem (taskId_of content (isoString t)) (notifiedTasks w)) eqn:E.
    + apply mem_In in E. left. split; [now apply checkTask_notified | now right].
    + apply mem_false in E. right. repeat split; try assumption.
      destruct (checkTask_due_time host now t content w) as [_ H].
      destruct (H Hle E) as (w' & A & B & C & _). now exists w'.
  - left. split; [now apply checkTask_future | now left].
Qed.

(** When every date is valid the iteration returns, and a task that is
    due when its turn comes is in the notified set afterwards; the
    notifications made are for identities that were not in the set,
    each once. *)
Lemma forEach_fires_due (clock : nat -> Z) (tasks : list Task) :
  forall (k : nat) (w : World),
  Forall valid_date tasks ->
  exists w' delta,
    forEach_checkTask clock k tasks w = Returned w'
    /\ sent w' = sent w ++ delta
    /\ (forall x, In x (notifiedTasks w')
                  <-> In x (notifiedTasks w) \/ In x (ids_of delta))
    /\ NoDup (ids_of delta)
    /\ (forall x, In x (ids_of delta) -> ~ In x (notifiedTasks w))
    /\ (forall i t tv,
          nth_error tasks i = Some t ->
          dueDateTime t = TimeValue tv ->
          (tv <= clock (k + i)%nat)%Z ->
          In (taskId_of (content t) (isoString tv)) (notifiedTasks w')).
Proof.
  induction tasks as [|t tasks IH]; intros k w Hv.
  - exists w, []. cbn [forEach_checkTask ids_of List.map].
    rewrite app_nil_r. conjuncts; try reflexivity.
    + intros x. cbn. tauto.
    + constructor.
    + intros x [].
    + intros [|i] ? ? ?; discriminate.
  - apply Forall_cons_iff in Hv as [Ht Hv]. unfold valid_date in Ht.
    destruct (dueDateTime t) as [|tv] eqn:Ed; [congruence|].
    cbn [forEach_checkTask]. rewrite Ed.
    destruct (checkTask_valid_cases (clock k) tv (content t) w)
      as [[E Hwhy] | (Hle & Hnot & w1 & E & Hs1 & Hn1)]; rewrite E.
    + destruct (IH (S k) w Hv) as (w' & delta & R & Hs & Hn & Hnd & Hdis & Hdue).
      exists w', delta. repeat split; try assumption; try apply Hn; try tauto.
      intros [|i] u uv Hnth Hu Hclock.
      * cbn in Hnth. injection Hnth as <-. rewrite Ed in Hu.
        injection Hu as <-. rewrite Nat.add_0_r in Hclock.
        destruct Hwhy as [Hlt | Hin]; [lia|]. apply Hn. now left.
      * cbn in Hnth. apply (Hdue i u uv Hnth Hu).
        now replace (S k + i) with (k + S i) by lia.
    + destruct (IH (S k) w1 Hv) as (w' & delta & R & Hs & Hn & Hnd & Hdis & Hdue).
      exists w', ((content t, isoString tv) :: delta).
      cbn [ids_of List.map fst snd]. fold (ids_of delta).
      split; [exact R|]. split; [|split; [|split; [|split]]].
      * rewrite Hs, Hs1, <- app_assoc. reflexivity.
      * intros x. rewrite Hn, Hn1, in_app_iff. cbn. intuition auto.
      * constructor; [|exact Hnd]. intros Hin. apply (Hdis _ Hin).
        rewrite Hn1. apply in_or_app. right. now left.
      * intros x [<- | Hin]; [exact Hnot|]. intros Hx. apply (Hdis _ Hin).
        rewrite Hn1. apply in_or_app. now left.
      * intros [|i] u uv Hnth Hu Hclock.
        -- cbn in Hnth. injection Hnth as <-. rewrite Ed in Hu.
           injection Hu as <-. apply Hn. left. rewrite Hn1.
           apply in_or_app. right. now left.
        -- cbn in Hnth. apply (Hdue i u uv Hnth Hu).
           now replace (S k + i) with (k + S i) by lia.
Qed.

(** A sweep over a cache whose dates are all valid returns, and every
    cached task that is due when its turn comes and was not notified
    before the sweep is notified exactly once by the sweep. *)
Lemma sweep_fires_every_due_task (clock : nat -> Z) (w : World) :
  Forall valid_date (taskCache w) ->
  exists w' delta,
    checkTasks clock w = Returned w'
    /\ sent w' = sent w ++ delta
    /\ forall i t tv,
         nth_error (taskCache w) i = Some t ->
         dueDateTime t = TimeValue tv ->
         (tv <= clock i)%Z ->
         ~ In (taskId_of (content t) (isoString tv)) (notifiedTasks w) ->
         count_occ (list_eq_dec N.eq_dec) (ids_of delta)
                   (taskId_of (content t) (isoString tv)) = 1.
Proof.
  intros Hv. unfold checkTasks.
  destruct (forEach_fires_due clock (taskCache w) 0 w Hv)
    as (w' & delta & R & Hs & Hn & Hnd & _ & Hdue).
  exists w', delta. repeat split; try assumption.
  intros i t tv Hnth Ht Hclock Hnot.
  apply NoDup_count_occ'; [exact Hnd|].
  specialize (Hdue i t tv Hnth Ht Hclock). apply Hn in Hdue.
  destruct Hdue as [Hin | Hin]; [contradiction | exact Hin].
Qed.

(** [loadNotifiedTasks] without a data file, or with a data file that
    has no [notifiedTasks], changes nothing. *)
Lemma loadNotifiedTasks_cold (w : World) :
  (dataFile w = None
   \/ exists d, dataFile w = Some d /\ Data.notifiedTasks d = None) ->
  loadNotifiedTasks w = w.
Proof.
  intros [E | (d & E & E')]; unfold loadNotifiedTasks; rewrite E;
    [reflexivity | now rewrite E'].
Qed.

(** [loadNotifiedTasks] puts every persisted identity in the notified
    set. *)
Lemma loadNotifiedTasks_restores (w : World) (x : jsstr) :
  In x (persisted w) -> In x (notifiedTasks (loadNotifiedTasks w)).
Proof.
  unfold persisted, loadNotifiedTasks.
  destruct (dataFile w) as [d|]; [|intros []].
  destruct (Data.notifiedTasks d) as [a|]; [|intros []].
  world_fields. apply Set_of_array_In.
Qed.

(** A plugin loaded without a data file, or from a data file without
    [notifiedTasks], starts with an empty notified set and nothing
    notified. *)
Lemma boot_cold (data : option Data.t) (vault : list TFile) :
  (data = None \/ exists d, data = Some d /\ Data.notifiedTasks d = None) ->
  notifiedTasks (boot data vault) = [] /\ sent (boot data vault) = [].
Proof.
  intros Hcold. unfold boot, onload.
  match goal with |- context [initializeTaskCache _ ?w0] =>
    destruct (initializeTaskCache_frame vault w0) as (_ & Hn & _ & Hs & _) end.
  cbv zeta in *. rewrite Hn, Hs. unfold loadNotifiedTasks, loadSettings.
  world_fields. destruct Hcold as [-> | (d & -> & E)]; [now split|].
  rewrite E. now split.
Qed.

(** After a cold start, when every cached date is valid, the first
    sweep notifies every task that is due when its turn comes, and each
    identity once. *)
Lemma cold_start_first_sweep (data : option Data.t) (vault : list TFile)
  (clock : nat -> Z) :
  (data = None \/ exists d, data = Some d /\ Data.notifiedTasks d = None) ->
  Forall valid_date (taskCache (boot data vault)) ->
  exists w',
    checkTasks clock (boot data vault) = Returned w'
    /\ forall i t tv,
         nth_error (taskCache (boot data vault)) i = Some t ->
         dueDateTime t = TimeValue tv ->
         (tv <= clock i)%Z ->
         count_occ (list_eq_dec N.eq_dec) (sent_ids w')
                   (taskId_of (content t) (isoString tv)) = 1.
Proof.
  intros Hcold Hv. destruct (boot_cold data vault Hcold) as [Hn Hs].
  destruct (sweep_fires_every_due_task clock (boot data vault) Hv)
    as (w' & delta & R & Hd & H).
  exists w'. split; [exact R|]. intros i t tv Hnth Ht Hclock.
  unfold sent_ids. rewrite Hd, Hs. cbn [app].
  apply (H i t tv Hnth Ht Hclock). rewrite Hn. intros [].
Qed.

End Sweep.

(* ================================================================== *)
(** ** Where the code departs from its specification *)

(** A sweep ends at the first cached task whose date is invalid:
    [toISOString] throws before [checkTask] compares anything, and the
    tasks after it in the cache are not visited. *)
Lemma sweep_stops_at_invalid_date (host : Host) (clock : nat -> Z)
  (w : World) (before : list Task) (t : Task) (after : list Task) :
  taskCache w = before ++ t :: after ->
  Forall valid_date before ->
  dueDateTime t = InvalidDate ->
  threw (checkTasks clock w) = true
  /\ checkTasks clock w = forEach_checkTask clock 0 (before ++ [t]) w.
Proof.
  intros Hc Hv Ht. unfold checkTasks. rewrite Hc.
  assert (forall k w0,
            exists w1, forEach_checkTask clock k (before ++ t :: after) w0
                       = Thrown w1
                       /\ forEach_checkTask clock k (before ++ [t]) w0
                          = Thrown w1) as H.
  { clear Hc. induction before as [|b before IH]; intros k w0.
    - exists w0. cbn [app forEach_checkTask]. rewrite Ht. now split.
    - apply Forall_cons_iff in Hv as [Hb Hv]. unfold valid_date in Hb.
      cbn [app forEach_checkTask].
      destruct (dueDateTime b) as [|tb] eqn:Eb; [congruence|].
      destruct (checkTask_valid_cases (clock k) tb (content b) w0)
        as [[E _] | (_ & _ & w1 & E & _)]; rewrite E; now apply IH. }
  destruct (H 0 w) as (w1 & E1 & E2). rewrite E1, E2. now split.
Qed.

(** C2, at a failing input.  The plugin is loaded on a note whose first
    marker has month 13 and whose second marker was due in 2020.  At
    the sweep of 2025-01-02 the second task is in the cache, is due and
    has not been notified, and the sweep ends with an exception at the
    first task: no notification is made and the notified set stays
    empty. *)
Theorem sweep_stops_before_due_task :
  List.map fields (taskCache (@boot Utc.host Example.hook_only [Example.bad_month]))
  = [(str "x", InvalidDate); (str "y", TimeValue 1577869200000)]
  /\ (1577869200000 <= Example.jan2)%Z
  /\ notifiedTasks (@boot Utc.host Example.hook_only [Example.bad_month]) = []
  /\ @checkTasks Utc.host (Example.at_time Example.jan2)
       (@boot Utc.host Example.hook_only [Example.bad_month])
     = Thrown (@boot Utc.host Example.hook_only [Example.bad_month])
  /\ sent (@boot Utc.host Example.hook_only [Example.bad_month]) = [].
Proof.
  conjuncts; try evaluate. vm_compute. discriminate.
Qed.

(** C9, at a failing input.  Without a data file the plugin starts with
    an empty notified set; on the same note, the first sweep and the
    sweeps after it end at the first task, and the task due since 2020
    is never notified. *)
Theorem cold_start_due_task_never_fires :
  notifiedTasks (@boot Utc.host None [Example.bad_month]) = []
  /\ List.map fields (taskCache (@boot Utc.host None [Example.bad_month]))
     = [(str "x", InvalidDate); (str "y", TimeValue 1577869200000)]
  /\ threw (@checkTasks Utc.host (Example.at_time Example.jan2)
              (@boot Utc.host None [Example.bad_month])) = true
  /\ sent (@run Utc.host (@boot Utc.host None [Example.bad_month])
             [Sweep (Example.at_time Example.jan2);
              Sweep (Example.at_time Example.jan2);
              Sweep (Example.at_time Example.jan2)]) = [].
Proof.
  conjuncts; evaluate.
Qed.

(** C4, at a failing input.  The plugin is loaded from a data file that
    holds the webhook URL.  The sweep of 2025-01-02 notifies the task
    and [saveNotifiedTasks] leaves a data file without webhook URL;
    the user then edits the URL and [saveSettings] leaves a data file
    without notified set; after a restart the notified set is empty and
    the next sweep notifies the same identity again. *)
Theorem saves_overwrite_each_other :
  dataFile (@boot Utc.host Example.hook_only [Example.milk])
  = Some (Data.mk (Some Example.hook) None)
  /\ dataFile (@run Utc.host (@boot Utc.host Example.hook_only [Example.milk])
                 [Sweep (Example.at_time Example.jan2)])
     = Some (Data.mk None (Some [str "Buy milk-2025-01-01T09:00:00.000Z"]))
  /\ dataFile (@run Utc.host (@boot Utc.host Example.hook_only [Example.milk])
                 [Sweep (Example.at_time Example.jan2); Edited Example.hook])
     = Some (Data.mk (Some Example.hook) None)
  /\ notifiedTasks
       (@run Utc.host (@boot Utc.host Example.hook_only [Example.milk])
          [Sweep (Example.at_time Example.jan2); Edited Example.hook;
           Restart [Example.milk]])
     = []
  /\ sent_ids
       (@run Utc.host (@boot Utc.host Example.hook_only [Example.milk])
          [Sweep (Example.at_time Example.jan2); Edited Example.hook;
           Restart [Example.milk]; Sweep (Example.at_time Example.jan2)])
     = [str "Buy milk-2025-01-01T09:00:00.000Z";
        str "Buy milk-2025-01-01T09:00:00.000Z"].
Proof.
  conjuncts; evaluate.
Qed.

(** What the two saves write, in general: [saveNotifiedTasks] a data
    file without webhook URL, [saveSettings] the [settings] object,
    whose notified set, if any, is the one read when the plugin was
    loaded. *)
Lemma saves_replace_data_file (w : World) :
  dataFile (saveNotifiedTasks w)
  = Some (Data.mk None (Some (notifiedTasks w)))
  /\ dataFile (saveSettings w) = Some (settings w).
Proof. split; reflexivity. Qed.

(* ================================================================== *)
(** ** The cache only grows *)

(** C3, as amended.  In every world the plugin reaches, a change of a
    markdown note adds the tasks extracted from its text to the cache,
    as new objects after those already there, and a change of another
    file adds nothing: no element leaves the cache.  The startup scan
    starts from an empty cache and leaves in it the tasks of all
    markdown notes of the vault, note after note. *)
Theorem handleFileChange_appends (host : Host) (data : option Data.t)
  (vault : list TFile) (events : list Event) (file : TFile)
  (vault' : list TFile) :
  taskCache (handleFileChange file (run (boot data vault) events))
  = taskCache (run (boot data vault) events)
    ++ (if eqb_str (extension file) (str "md")
        then extractTasks (heapTop (run (boot data vault) events)) (text file)
        else [])
  /\ List.map fields
       (taskCache (initializeTaskCache vault' (run (boot data vault) events)))
     = flat_map (fun f => List.map fields (extractTasks 0 (text f)))
                (getMarkdownFiles vault').
Proof.
  split; [|apply initializeTaskCache_fields].
  unfold handleFileChange.
  destruct (eqb_str (extension file) (str "md")) eqn:E.
  - apply eqb_str_true in E.
    apply (addToTaskCache_md file _ (run_allocated data vault events) E).
  - rewrite addToTaskCache_other, app_nil_r; [reflexivity|].
    intros H. apply eqb_str_true in H. congruence.
Qed.

(** C3, as stated, fails.  After the marker is removed from the note
    and the change is handled, the new text has no task and the cache
    still holds the task, which the next sweep notifies; and a change
    event for the unchanged note leaves two entries of the same
    identity in the cache. *)
Lemma removed_marker_stays_cached :
  @extractTasks Utc.host 0 (text Example.milk_removed) = []
  /\ List.map fields
       (taskCache (@run Utc.host (@boot Utc.host None [Example.milk])
                     [Changed Example.milk_removed]))
     = [(str "Buy milk", TimeValue Example.jan1)]
  /\ sent_ids (@run Utc.host (@boot Utc.host None [Example.milk])
                 [Changed Example.milk_removed;
                  Sweep (Example.at_time Example.jan2)])
     = [str "Buy milk-2025-01-01T09:00:00.000Z"]
  /\ List.map (@identity Utc.host)
       (taskCache (@run Utc.host (@boot Utc.host None [Example.milk])
                     [Changed Example.milk]))
     = [Some (str "Buy milk-2025-01-01T09:00:00.000Z");
        Some (str "Buy milk-2025-01-01T09:00:00.000Z")].
Proof.
  conjuncts; evaluate.
Qed.

(* ================================================================== *)
(** ** More on [extractTasks]: one task per marker *)

Lemma payloads_eq (s : jsstr) :
  payloads s =
  (match match_marker s with Some (p, _) => [p] | None => [] end)
  ++ match s with [] => [] | _ :: s' => payloads s' end.
Proof. destruct s; reflexivity. Qed.

Lemma attempt_none_no_marker (s : jsstr) :
  attempt s = None -> match_marker s = None.
Proof.
  rewrite attempt_eq. destruct (match_marker s) as [[g3 r]|]; [discriminate|].
  reflexivity.
Qed.

Lemma attempt_marker_free (s : jsstr) (m : result) :
  attempt s = Some m -> marker_free (length (group1 m)) s.
Proof.
  revert m. induction s as [|c s IH]; intros m; rewrite attempt_eq.
  - destruct (match_marker []) as [[g3 r]|]; [|discriminate].
    intros [= <-] k Hk. cbn in Hk. lia.
  - destruct (match_marker (c :: s)) as [[g3 r]|] eqn:E.
    + intros [= <-] k Hk. cbn in Hk. lia.
    + destruct (is_line_terminator c); [discriminate|].
      destruct (attempt s) as [m'|] eqn:A; [|discriminate].
      intros [= <-] k Hk. cbn [group1 length] in Hk.
      destruct k as [|k]; [exact E|]. cbn [skipn].
      apply (IH m' eq_refl). lia.
Qed.

(** A match of [exec] is at the first marker of the text. *)
Lemma exec_first (s : jsstr) (m : result) :
  exec s = Some m ->
  exists pre,
    s = pre ++ marker_text (group3 m) ++ rest m
    /\ is_payload (group3 m)
    /\ marker_free (length pre) s.
Proof.
  induction s as [|c s IH]; rewrite exec_eq.
  - destruct (attempt []) as [m'|] eqn:A; [|discriminate]. intros [= <-].
    exists (group1 m'). destruct (attempt_inv _ A) as (E & Hp & _).
    repeat split; [exact E | exact Hp | now apply attempt_marker_free].
  - destruct (attempt (c :: s)) as [m'|] eqn:A.
    + intros [= <-]. exists (group1 m').
      destruct (attempt_inv _ A) as (E & Hp & _).
      repeat split; [exact E | exact Hp | now apply attempt_marker_free].
    + intros E. destruct (IH E) as (pre & Hs & Hp & Hfree).
      exists (c :: pre). repeat split; [cbn [app]; now f_equal | exact Hp |].
      intros k Hk. cbn [length] in Hk. destruct k as [|k].
      * now apply attempt_none_no_marker.
      * cbn [skipn]. apply Hfree. lia.
Qed.

Lemma exec_none_no_marker (s : jsstr) :
  exec s = None -> forall k, match_marker (skipn k s) = None.
Proof.
  induction s as [|c s IH]; rewrite exec_eq.
  - destruct (attempt []) eqn:A; [discriminate|]. intros _ k.
    rewrite skipn_nil. now apply attempt_none_no_marker.
  - destruct (attempt (c :: s)) eqn:A; [discriminate|]. intros E [|k].
    + now apply attempt_none_no_marker.
    + cbn [skipn]. now apply IH.
Qed.

Lemma payloads_no_marker (s : jsstr) :
  (forall k, match_marker (skipn k s) = None) -> payloads s = [].
Proof.
  induction s as [|c s IH]; intros H; rewrite payloads_eq;
    pose proof (H 0) as H0; cbn [skipn] in H0; rewrite H0; [reflexivity|].
  cbn [app]. apply IH. intros k. apply (H (S k)).
Qed.

Lemma payloads_marker_free (pre x : jsstr) :
  marker_free (length pre) (pre ++ x) -> payloads (pre ++ x) = payloads x.
Proof.
  induction pre as [|c pre IH]; intros H; [reflexivity|].
  rewrite <- app_comm_cons in *. apply marker_free_tail in H as [H0 H].
  rewrite payloads_eq, H0. cbn [app]. now apply IH.
Qed.

Lemma payloads_marker (p r : jsstr) :
  is_payload p -> payloads (marker_text p ++ r) = p :: payloads r.
Proof.
  intros Hp. rewrite payloads_eq, (match_marker_text r Hp).
  pose proof (marker_text_length Hp) as Hl.
  assert (forall k, 0 < k < 26 ->
            match_marker (skipn k (marker_text p ++ r)) = None) as Hno
    by (intros k Hk; now apply marker_no_overlap).
  destruct (marker_text p) as [|c0 t]; [discriminate|].
  cbn [app length] in *. f_equal. apply payloads_marker_free.
  intros k Hk. apply (Hno (S k)). lia.
Qed.

Lemma payloads_shape (s : jsstr) : Forall is_payload (payloads s).
Proof.
  induction s as [|c s IH]; rewrite payloads_eq.
  - destruct (match_marker []) as [[p r]|] eqn:E; [|constructor].
    apply match_marker_inv in E as [_ Hp]. now repeat constructor.
  - destruct (match_marker (c :: s)) as [[p r]|] eqn:E; [|exact IH].
    apply match_marker_inv in E as [_ Hp]. now constructor.
Qed.

Section OnePerMarker.

Context {host : Host}.

Lemma extractTasks_dates (len : nat) :
  forall (n : nat) (s : jsstr),
  length s <= len ->
  List.map dueDateTime (extractTasks n s)
  = List.map Date_parse (payloads s).
Proof.
  induction len as [|len IH]; intros n s Hlen; rewrite extractTasks_eq.
  - destruct s; [|cbn in Hlen; lia]. reflexivity.
  - destruct (exec s) as [m|] eqn:E.
    + destruct (exec_first s m E) as (pre & Hs & Hp & Hfree).
      pose proof E as Hr. apply exec_rest_shorter in Hr.
      rewrite Hs in Hfree.
      assert (payloads s = group3 m :: payloads (rest m)) as ->.
      { rewrite Hs at 1.
        now rewrite (payloads_marker_free pre _ Hfree), (payloads_marker _ _ Hp). }
      rewrite Hs in Hlen, Hr. rewrite !length_app in Hlen, Hr.
      cbn [List.map dueDateTime]. f_equal. apply IH. lia.
    + now rewrite (payloads_no_marker s (exec_none_no_marker s E)).
Qed.

Lemma extractTasks_length_le (len : nat) :
  forall (n : nat) (s : jsstr),
  length s <= len -> 26 * length (extractTasks n s) <= length s.
Proof.
  induction len as [|len IH]; intros n s Hlen; rewrite extractTasks_eq.
  - destruct s; [|cbn in Hlen; lia]. cbn. lia.
  - destruct (exec s) as [m|] eqn:E; [|cbn; lia].
    pose proof E as Hr. apply exec_rest_shorter in Hr. cbn [length].
    specialize (IH (S n) (rest m)). lia.
Qed.

End OnePerMarker.

(** X1.  [extractTasks] returns one task for every position of the
    text at which a marker starts, in the order of the text: the due
    times of the tasks are the dates parsed from the payloads of these
    markers, each of the shape [YYYY-MM-DD HH:MM]. *)
Theorem extractTasks_one_task_per_marker (host : Host) (n : nat) (s : jsstr) :
  List.map dueDateTime (extractTasks n s) = List.map Date_parse (payloads s)
  /\ length (extractTasks n s) = length (payloads s)
  /\ Forall is_payload (payloads s).
Proof.
  pose proof (extractTasks_dates (length s) n s (le_n _)) as H.
  split; [exact H|]. split; [|apply payloads_shape].
  apply (f_equal (@length _)) in H. now rewrite !length_map in H.
Qed.

(** X2.  A marker takes 26 code units and markers do not share any: a
    text of [l] code units gives at most [l / 26] tasks. *)
Theorem extractTasks_at_most_one_per_26 (host : Host) (n : nat) (s : jsstr) :
  26 * length (extractTasks n s) <= length s.
Proof. apply (extractTasks_length_le (length s)). apply le_n. Qed.

(* ================================================================== *)
(** ** More on [extractTasks]: contents are trimmed *)

Lemma trimStart_head (s : jsstr) (c : N) (r : jsstr) :
  trimStart s = c :: r -> is_trimmed_char c = false.
Proof.
  induction s as [|a s IH]; cbn [trimStart]; [discriminate|].
  destruct (is_trimmed_char a) eqn:E; [exact IH|]. now intros [= <- _].
Qed.

Lemma trimStart_clean (s : jsstr) :
  (forall c r, s = c :: r -> is_trimmed_char c = false) -> trimStart s = s.
Proof.
  destruct s as [|c r]; [reflexivity|]. intros H. cbn [trimStart].
  now rewrite (H c r eq_refl).
Qed.

Lemma trim_head (s : jsstr) (c : N) (r : jsstr) :
  trim s = c :: r -> is_trimmed_char c = false.
Proof.
  intros E. destruct (trimEnd_prefix (trimStart s)) as [b Hb].
  fold (trim s) in Hb. rewrite E in Hb. cbn [app] in Hb.
  eapply trimStart_head, Hb.
Qed.

Lemma trim_last (s : jsstr) (c : N) (r : jsstr) :
  trim s = r ++ [c] -> is_trimmed_char c = false.
Proof.
  unfold trim, trimEnd. intros E. apply (f_equal (@rev N)) in E.
  rewrite rev_involutive, rev_app_distr in E. cbn [rev app] in E.
  eapply trimStart_head, E.
Qed.

Lemma trim_trim (s : jsstr) : trim (trim s) = trim s.
Proof.
  assert (trimStart (trim s) = trim s) as E1.
  { apply trimStart_clean. intros c r. apply trim_head. }
  unfold trim at 1. rewrite E1. unfold trimEnd.
  rewrite trimStart_clean; [apply rev_involutive|].
  intros c r E. apply (trim_last s c (rev r)).
  rewrite <- (rev_involutive (trim s)), E. reflexivity.
Qed.

Section Trimmed.

Context {host : Host}.

(** The reminder text is the result of a [trim] in both branches. *)
Lemma reminderText_of_trimmed (g1 : jsstr) :
  exists x, reminderText_of g1 = trim x.
Proof.
  unfold reminderText_of. destruct (startsWith _ _); eexists; reflexivity.
Qed.

Lemma extract_loop_trimmed (fuel n : nat) (s : jsstr) :
  Forall (fun t => exists x, content t = trim x) (extract_loop fuel n s).
Proof.
  revert n s. induction fuel as [|fuel IH]; intros n s; [constructor|].
  cbn [extract_loop]. destruct (exec s) as [m|]; [|constructor].
  constructor; [apply reminderText_of_trimmed | apply IH].
Qed.

End Trimmed.

(** X3.  The content of every task returned by [extractTasks] is
    trimmed: trimming it again changes nothing, and when it is not
    empty its first and its last code unit are neither white space nor
    line terminators, also after a checkbox was removed. *)
Theorem extractTasks_content_trimmed (host : Host) (n : nat) (s : jsstr) :
  Forall (fun t =>
            trim (content t) = content t
            /\ (forall c r, content t = c :: r -> is_trimmed_char c = false)
            /\ (forall c r, content t = r ++ [c] -> is_trimmed_char c = false))
         (extractTasks n s).
Proof.
  eapply Forall_impl; [|apply (extract_loop_trimmed (S (length s)) n s)].
  intros t [x ->]. split; [apply trim_trim|]. split; intros c r.
  - apply trim_head.
  - apply trim_last.
Qed.

(* ================================================================== *)
(** ** More on [checkTask] and [sendNotification] *)

Lemma app_inj_same_length (A : Type) (a1 a2 b1 b2 : list A) :
  length b1 = length b2 -> a1 ++ b1 = a2 ++ b2 -> a1 = a2 /\ b1 = b2.
Proof.
  intros Hl. revert a2. induction a1 as [|x a1 IH]; intros [|y a2] E;
    cbn [app] in E.
  - now split.
  - apply (f_equal (@length A)) in E. cbn [length] in E.
    rewrite length_app in E. lia.
  - apply (f_equal (@length A)) in E. cbn [length] in E.
    rewrite length_app in E. lia.
  - injection E as -> E. destruct (IH _ E) as [-> ->]. now split.
Qed.

(** X4.  The identity that [checkTask] builds tells tasks apart: two
    tasks whose ISO due times have the same number of code units (24
    for the years 0 to 9999) and that differ in content or in ISO due
    time have different identities, also when a content ends like the
    start of an ISO time or holds the separator. *)
Theorem taskId_of_injective (c1 c2 i1 i2 : jsstr) :
  length i1 = length i2 ->
  c1 <> c2 \/ i1 <> i2 ->
  taskId_of c1 i1 <> taskId_of c2 i2.
Proof.
  intros Hl Hne E. unfold taskId_of in E. rewrite !app_assoc in E.
  destruct (app_inj_same_length _ _ _ _ _ Hl E) as [E1 E2].
  apply app_inj_tail in E1 as [E1 _]. tauto.
Qed.

(** The theorem at the contents ["a-2025"] and ["a"], due at the same
    time. *)
Lemma taskId_of_injective_witness :
  length (Utc.iso Example.jan1) = length (Utc.iso Example.jan1)
  /\ (str "a-2025" <> str "a" \/ Utc.iso Example.jan1 <> Utc.iso Example.jan1)
  /\ taskId_of (str "a-2025") (Utc.iso Example.jan1)
     <> taskId_of (str "a") (Utc.iso Example.jan1).
Proof.
  assert (str "a-2025" <> str "a" \/ Utc.iso Example.jan1 <> Utc.iso Example.jan1)
    as Hne by (left; vm_compute; discriminate).
  split; [reflexivity|]. split; [exact Hne|].
  apply (taskId_of_injective (str "a-2025") (str "a")
           (Utc.iso Example.jan1) (Utc.iso Example.jan1) eq_refl Hne).
Defined.

Lemma has_text_not_blank (u : jsstr) : has_text u -> blank (Some u) = false.
Proof.
  intros (c & Hin & Hc). destruct (blank (Some u)) eqn:E; [|reflexivity].
  apply blank_iff in E as [E | (u' & [= <-] & H)]; [discriminate|].
  rewrite Forall_forall in H. specialize (H c Hin). congruence.
Qed.

(** X5.  With a webhook URL that holds more than white space, a call
    of [checkTask] on a due task that was not notified makes exactly
    one [requestUrl] call, to that URL, with the ISO due time in the
    field "Due Date" and the content in the field "Task"; it writes no
    warning and records the identity. *)
Theorem configured_webhook_posts (host : Host) (now t : Z)
  (content u : jsstr) (w : World) :
  Data.webhookUrl (settings w) = Some u ->
  has_text u ->
  (t <= now)%Z ->
  ~ In (taskId_of content (isoString t)) (notifiedTasks w) ->
  exists w',
    checkTask now content (TimeValue t) w = Returned w'
    /\ posted w' = posted w ++ [mkRequest u (isoString t) content]
    /\ warned w' = warned w
    /\ sent w' = sent w ++ [(content, isoString t)]
    /\ In (taskId_of content (isoString t)) (notifiedTasks w').
Proof.
  intros Hu Ht Hle Hnot. apply has_text_not_blank in Ht.
  eexists. split; [now apply checkTask_fires|].
  unfold sendNotification, saveNotifiedTasks. world_fields.
  rewrite Hu, Ht. world_fields.
  repeat split. apply Set_add_In. now right.
Qed.

(** The theorem at a plugin loaded from a data file that holds a URL. *)
Lemma configured_webhook_posts_witness :
  Data.webhookUrl (settings (@boot Utc.host Example.hook_only [Example.milk]))
  = Some Example.hook
  /\ has_text Example.hook
  /\ (Example.jan1 <= Example.jan2)%Z
  /\ ~ In (taskId_of (str "Buy milk") (Utc.iso Example.jan1))
          (notifiedTasks (@boot Utc.host Example.hook_only [Example.milk]))
  /\ exists w',
       @checkTask Utc.host Example.jan2 (str "Buy milk")
         (TimeValue Example.jan1)
         (@boot Utc.host Example.hook_only [Example.milk])
       = Returned w'
       /\ posted w'
          = [mkRequest Example.hook (str "2025-01-01T09:00:00.000Z")
                       (str "Buy milk")]
       /\ warned w' = 0.
Proof.
  assert (Data.webhookUrl
            (settings (@boot Utc.host Example.hook_only [Example.milk]))
          = Some Example.hook) as Hu by evaluate.
  assert (has_text Example.hook) as Ht.
  { exists 104%N. split; [left; reflexivity | reflexivity]. }
  assert (Example.jan1 <= Example.jan2)%Z as Hle by (vm_compute; discriminate).
  assert (~ In (taskId_of (str "Buy milk") (Utc.iso Example.jan1))
            (notifiedTasks (@boot Utc.host Example.hook_only [Example.milk])))
    as Hnot by (vm_compute; intros H; exact H).
  repeat (split; [assumption|]).
  destruct (configured_webhook_posts Utc.host Example.jan2 Example.jan1
              (str "Buy milk") Example.hook
              (@boot Utc.host Example.hook_only [Example.milk])
              Hu Ht Hle Hnot) as (w' & E & _).
  exists w'. split; [exact E|].
  vm_compute in E. injection E as <-. conjuncts; evaluate.
Defined.

(* ================================================================== *)
(** ** More on sweeps *)

Section MoreSweeps.

Context {host : Host}.

(** One call of [checkTask], with all it changes. *)
Lemma checkTask_effect (now : Z) (content : jsstr) (d : Date) (w : World) :
  world_of (checkTask now content d w) = w
  \/ exists t w',
       d = TimeValue t /\ (t <= now)%Z
       /\ ~ In (taskId_of content (isoString t)) (notifiedTasks w)
       /\ checkTask now content d w = Returned w'
       /\ sent w' = sent w ++ [(content, isoString t)]
       /\ notifiedTasks w'
          = notifiedTasks w ++ [taskId_of content (isoString t)]
       /\ persisted w' = notifiedTasks w'
       /\ settings w' = settings w
       /\ taskCache w' = taskCache w.
Proof.
  destruct d as [|t]; [now left|].
  destruct (checkTask_valid_cases now t content w)
    as [[E _] | (Hle & Hnot & _)]; [left; now rewrite E|].
  right. destruct (checkTask_due_time host now t content w) as [_ H].
  destruct (H Hle Hnot) as (w' & E & Hs & Hn & Hp).
  exists t, w'. repeat split; try assumption.
  - rewrite (@checkTask_fires host now t content w Hle Hnot) in E.
    injection E as <-.
    match goal with |- settings (sendNotification ?c ?i ?w0) = _ =>
      destruct (sendNotification_sent c i w0) as (_ & _ & _ & _ & Hx & _) end.
    now rewrite Hx.
  - rewrite (@checkTask_fires host now t content w Hle Hnot) in E.
    injection E as <-.
    match goal with |- taskCache (sendNotification ?c ?i ?w0) = _ =>
      destruct (sendNotification_sent c i w0) as (_ & _ & _ & Hx & _) end.
    now rewrite Hx.
Qed.

Lemma forEach_sound (clock : nat -> Z) (tasks : list Task) :
  forall (k : nat) (w : World),
  exists delta,
    sent (world_of (forEach_checkTask clock k tasks w)) = sent w ++ delta
    /\ settings (world_of (forEach_checkTask clock k tasks w)) = settings w
    /\ (forall c iso,
          In (c, iso) delta ->
          exists i t tv,
            nth_error tasks i = Some t
            /\ content t = c
            /\ dueDateTime t = TimeValue tv
            /\ iso = isoString tv
            /\ (tv <= clock (k + i)%nat)%Z
            /\ ~ In (taskId_of c iso) (notifiedTasks w)).
Proof.
  induction tasks as [|t tasks IH]; intros k w.
  - exists []. cbn [forEach_checkTask world_of]. rewrite app_nil_r.
    repeat split. intros c iso [].
  - cbn [forEach_checkTask].
    destruct (checkTask_effect (clock k) (content t) (dueDateTime t) w)
      as [E | (tv & w1 & Ed & Hle & Hnot & E & Hs & Hn & _ & Hset & _)].
    + destruct (checkTask (clock k) (content t) (dueDateTime t) w)
        as [w1 | w1]; cbn [world_of] in E; subst w1.
      * destruct (IH (S k) w) as (delta & Hs & Hset & Hd).
        exists delta. repeat split; try assumption.
        intros c iso Hin.
        destruct (Hd c iso Hin) as (i & u & uv & H1 & H2 & H3 & H4 & H5 & H6).
        exists (S i), u, uv. repeat split; try assumption.
        now replace (k + S i) with (S k + i) by lia.
      * exists []. cbn [world_of]. rewrite app_nil_r.
        repeat split. intros c iso [].
    + rewrite E. destruct (IH (S k) w1) as (delta & Hs' & Hset' & Hd).
      exists ((content t, isoString tv) :: delta). split; [|split].
      * rewrite Hs', Hs, <- app_assoc. reflexivity.
      * congruence.
      * intros c iso [[= <- <-] | Hin].
        -- exists 0, t, tv. rewrite Nat.add_0_r. now repeat split.
        -- destruct (Hd c iso Hin)
             as (i & u & uv & H1 & H2 & H3 & H4 & H5 & H6).
           exists (S i), u, uv. repeat split; try assumption.
           ++ now replace (k + S i) with (S k + i) by lia.
           ++ intros Hx. apply H6. rewrite Hn. apply in_or_app. now left.
Qed.

Lemma forEach_again (clock : nat -> Z) (tasks : list Task) :
  forall (k : nat) (w w2 : World),
  incl (notifiedTasks (world_of (forEach_checkTask clock k tasks w)))
       (notifiedTasks w2) ->
  forEach_checkTask clock k tasks w2
  = if threw (forEach_checkTask clock k tasks w)
    then Thrown w2 else Returned w2.
Proof.
  induction tasks as [|t tasks IH]; intros k w w2 Hincl; [reflexivity|].
  cbn [forEach_checkTask] in *.
  destruct (dueDateTime t) as [|tv] eqn:Ed; [reflexivity|].
  destruct (checkTask_valid_cases (clock k) tv (content t) w)
    as [[E Hwhy] | (Hle & Hnot & w1 & E & _ & Hn)]; rewrite E in *.
  - assert (checkTask (clock k) (content t) (TimeValue tv) w2 = Returned w2)
      as ->.
    { destruct Hwhy as [Hlt | Hin]; [now apply checkTask_future|].
      apply checkTask_notified. apply Hincl.
      now apply forEach_keeps_notified. }
    now apply IH.
  - assert (checkTask (clock k) (content t) (TimeValue tv) w2 = Returned w2)
      as ->.
    { apply checkTask_notified. apply Hincl.
      apply forEach_keeps_notified. rewrite Hn. apply in_or_app.
      right. now left. }
    now apply IH.
Qed.

Lemma forEach_write_through (clock : nat -> Z) (tasks : list Task) :
  forall (k : nat) (w : World),
  world_of (forEach_checkTask clock k tasks w) = w
  \/ persisted (world_of (forEach_checkTask clock k tasks w))
     = notifiedTasks (world_of (forEach_checkTask clock k tasks w)).
Proof.
  induction tasks as [|t tasks IH]; intros k w; [now left|].
  cbn [forEach_checkTask].
  destruct (checkTask_effect (clock k) (content t) (dueDateTime t) w)
    as [E | (tv & w1 & _ & _ & _ & E & _ & _ & Hp & _)].
  - destruct (checkTask (clock k) (content t) (dueDateTime t) w)
      as [w1 | w1]; cbn [world_of] in E; subst w1; [apply IH | now left].
  - rewrite E. destruct (IH (S k) w1) as [-> | H]; now right.
Qed.

End MoreSweeps.

(** X6.  A sweep notifies nothing but due cached tasks: every call of
    [sendNotification] made by [checkTasks] is for a task of the cache,
    with its content and ISO due time, whose due time had passed when
    its turn came and whose identity was not in the notified set before
    the sweep; and the sweep leaves the settings and the cache as they
    were. *)
Theorem sweep_notifies_only_due_cached_tasks (host : Host)
  (clock : nat -> Z) (w : World) :
  exists delta,
    sent (world_of (checkTasks clock w)) = sent w ++ delta
    /\ settings (world_of (checkTasks clock w)) = settings w
    /\ taskCache (world_of (checkTasks clock w)) = taskCache w
    /\ (forall c iso,
          In (c, iso) delta ->
          exists i t tv,
            nth_error (taskCache w) i = Some t
            /\ content t = c
            /\ dueDateTime t = TimeValue tv
            /\ iso = isoString tv
            /\ (tv <= clock i)%Z
            /\ ~ In (taskId_of c iso) (notifiedTasks w)).
Proof.
  unfold checkTasks.
  destruct (forEach_sound clock (taskCache w) 0 w) as (delta & Hs & Hset & Hd).
  destruct (forEach_cache clock 0 (taskCache w) w) as [Hc _].
  exists delta. repeat split; assumption.
Qed.

(** X7.  A sweep made again with the same clock readings does nothing:
    it calls [sendNotification] for no task, writes nothing, and ends
    the way the first sweep ended. *)
Theorem sweep_again_does_nothing (host : Host) (clock : nat -> Z)
  (w : World) :
  checkTasks clock (world_of (checkTasks clock w))
  = if threw (checkTasks clock w)
    then Thrown (world_of (checkTasks clock w))
    else Returned (world_of (checkTasks clock w)).
Proof.
  destruct (forEach_cache clock 0 (taskCache w) w) as [Hc _].
  unfold checkTasks in *. cbv zeta in Hc. rewrite Hc.
  apply forEach_again. apply incl_refl.
Qed.

(** X8.  The notified set is written through: after a sweep either the
    world is as it was before the sweep, or the notified set of the
    data file is the notified set in memory, identity by identity and
    in the same order. *)
Theorem sweep_writes_through (host : Host) (clock : nat -> Z) (w : World) :
  world_of (checkTasks clock w) = w
  \/ persisted (world_of (checkTasks clock w))
     = notifiedTasks (world_of (checkTasks clock w)).
Proof. apply forEach_write_through. Qed.

(* ================================================================== *)
(** ** More on the notified set and the data file *)

Lemma Set_add_NoDup (x : jsstr) (l : list jsstr) :
  NoDup l -> NoDup (Set_add x l).
Proof.
  intros H. unfold Set_add. destruct (mem x l) eqn:E; [exact H|].
  apply NoDup_snoc; [exact H | now apply mem_false].
Qed.

Lemma fold_Set_add_NoDup (a acc : list jsstr) :
  NoDup acc -> NoDup (fold_left (fun s x => Set_add x s) a acc).
Proof.
  revert acc. induction a as [|x a IH]; intros acc H; [exact H|].
  cbn [fold_left]. now apply IH, Set_add_NoDup.
Qed.

Lemma fold_Set_add_fresh (a acc : list jsstr) :
  NoDup (acc ++ a) -> fold_left (fun s x => Set_add x s) a acc = acc ++ a.
Proof.
  revert acc. induction a as [|x a IH]; intros acc H; cbn [fold_left].
  - now rewrite app_nil_r.
  - assert (mem x acc = false) as E.
    { apply mem_false. intros Hin. apply NoDup_remove_2 in H.
      apply H, in_or_app. now left. }
    unfold Set_add at 2. rewrite E.
    replace (acc ++ x :: a) with ((acc ++ [x]) ++ a) in *
      by now rewrite <- app_assoc.
    now apply IH.
Qed.

(** [new Set(array)] of an array without repetition keeps the array. *)
Lemma Set_of_array_NoDup (a : list jsstr) : NoDup a -> Set_of_array a = a.
Proof. intros H. now apply (fold_Set_add_fresh a []). Qed.

Section MoreRuns.

Context {host : Host}.

Lemma forEach_invariant (P : World -> Prop) (clock : nat -> Z) :
  (forall now content d w, P w -> P (world_of (checkTask now content d w))) ->
  forall (tasks : list Task) (k : nat) (w : World),
  P w -> P (world_of (forEach_checkTask clock k tasks w)).
Proof.
  intros Hstep tasks. induction tasks as [|t tasks IH]; intros k w Hw;
    [exact Hw|].
  cbn [forEach_checkTask].
  pose proof (Hstep (clock k) (content t) (dueDateTime t) w Hw) as H.
  destruct (checkTask _ _ _ w) as [w1 | w1]; [now apply IH | exact H].
Qed.

(** In the worlds the plugin reaches, the notified set has no
    repetition. *)
Lemma checkTask_NoDup (now : Z) (content : jsstr) (d : Date) (w : World) :
  NoDup (notifiedTasks w) ->
  NoDup (notifiedTasks (world_of (checkTask now content d w))).
Proof.
  intros H.
  destruct (checkTask_effect now content d w)
    as [-> | (t & w' & _ & _ & Hnot & -> & _ & Hn & _)]; [exact H|].
  cbn [world_of]. rewrite Hn. now apply NoDup_snoc.
Qed.

Lemma onload_fields (vault : list TFile) (w : World) :
  settings (onload vault (newInstance w))
  = assign DEFAULT_SETTINGS (dataFile w)
  /\ notifiedTasks (onload vault (newInstance w))
     = match dataFile w with
       | Some d =>
           match Data.notifiedTasks d with
           | Some a => Set_of_array a
           | None => []
           end
       | None => []
       end
  /\ dataFile (onload vault (newInstance w)) = dataFile w
  /\ sent (onload vault (newInstance w)) = sent w
  /\ posted (onload vault (newInstance w)) = posted w
  /\ warned (onload vault (newInstance w)) = warned w.
Proof.
  unfold onload.
  destruct (initializeTaskCache_frame vault
              (loadNotifiedTasks (loadSettings (newInstance w))))
    as (A & B & C & D & E & F).
  cbv zeta in *. rewrite A, B, C, D, E, F.
  unfold loadNotifiedTasks, loadSettings, newInstance. world_fields.
  destruct (dataFile w) as [d|] eqn:Ed;
    [destruct (Data.notifiedTasks d)|]; world_fields;
    rewrite ?Ed; now repeat split.
Qed.

Lemma step_NoDup (w : World) (e : Event) :
  NoDup (notifiedTasks w) -> NoDup (notifiedTasks (step w e)).
Proof.
  intros H. destruct e as [clock | file | value | vault]; cbn [step].
  - apply (forEach_invariant (fun w => NoDup (notifiedTasks w)));
      [intros; now apply checkTask_NoDup | exact H].
  - unfold handleFileChange.
    destruct (addToTaskCache_frame file w) as (_ & Hn & _).
    cbv zeta in Hn. now rewrite Hn.
  - exact H.
  - destruct (onload_fields vault w) as (_ & Hn & _). rewrite Hn.
    destruct (dataFile w) as [d|]; [|constructor].
    destruct (Data.notifiedTasks d); [|constructor].
    apply fold_Set_add_NoDup. constructor.
Qed.

Lemma run_invariant (P : World -> Prop) (Q : Event -> Prop) :
  (forall w e, Q e -> P w -> P (step w e)) ->
  forall (events : list Event) (w : World),
  Forall Q events -> P w -> P (run w events).
Proof.
  intros Hstep events. induction events as [|e events IH]; intros w HQ Hw;
    [exact Hw|].
  apply Forall_cons_iff in HQ as [He HQ]. cbn [run fold_left].
  apply IH; [exact HQ | now apply Hstep].
Qed.

Lemma boot_is_onload (data : option Data.t) (vault : list TFile) :
  boot data vault
  = onload vault
      (newInstance (mkWorld (Data.mk None None) [] [] data 0 [] [] 0)).
Proof. reflexivity. Qed.

Lemma run_NoDup (data : option Data.t) (vault : list TFile)
  (events : list Event) :
  NoDup (notifiedTasks (run (boot data vault) events)).
Proof.
  apply (run_invariant (fun w => NoDup (notifiedTasks w)) (fun _ => True)).
  - intros w e _. apply step_NoDup.
  - apply Forall_forall. intros; exact I.
  - rewrite boot_is_onload.
    apply (step_NoDup _ (Restart vault)). constructor.
Qed.

(** Every call of [sendNotification] makes a request or writes a
    warning. *)
Lemma checkTask_accounts (now : Z) (content : jsstr) (d : Date) (w : World) :
  length (sent w) = length (posted w) + warned w ->
  length (sent (world_of (checkTask now content d w)))
  = length (posted (world_of (checkTask now content d w)))
    + warned (world_of (checkTask now content d w)).
Proof.
  intros H.
  destruct (checkTask_cases now content d w)
    as [-> | [-> | (t & -> & _ & _ & ->)]]; [exact H | exact H |].
  cbn [world_of]. unfold sendNotification, saveNotifiedTasks. world_fields.
  destruct (blank (Data.webhookUrl (settings w))) eqn:Eb; world_fields.
  - rewrite length_app. cbn [length]. lia.
  - destruct (Data.webhookUrl (settings w)); [|discriminate].
    world_fields. rewrite !length_app. cbn [length]. lia.
Qed.

Lemma step_accounts (w : World) (e : Event) :
  length (sent w) = length (posted w) + warned w ->
  length (sent (step w e)) = length (posted (step w e)) + warned (step w e).
Proof.
  intros H. destruct e as [clock | file | value | vault]; cbn [step].
  - apply (forEach_invariant
             (fun w => length (sent w) = length (posted w) + warned w));
      [intros; now apply checkTask_accounts | exact H].
  - unfold handleFileChange.
    destruct (addToTaskCache_frame file w) as (_ & _ & _ & A & B & C).
    cbv zeta in *. now rewrite A, B, C.
  - exact H.
  - destruct (onload_fields vault w) as (_ & _ & _ & A & B & C).
    now rewrite A, B, C.
Qed.

(** A sweep keeps the persisted notified set intact. *)
Lemma checkTask_intact (now : Z) (content : jsstr) (d : Date) (w : World) :
  intact w -> intact (world_of (checkTask now content d w)).
Proof.
  intros H.
  destruct (checkTask_effect now content d w)
    as [-> | (t & w' & _ & _ & _ & -> & _ & _ & Hp & _)]; [exact H|].
  cbn [world_of]. unfold intact. rewrite Hp. apply incl_refl.
Qed.

Lemma step_intact (w : World) (e : Event) :
  match e with Edited _ => False | _ => True end ->
  intact w -> intact (step w e).
Proof.
  intros He H. destruct e as [clock | file | value | vault]; cbn [step].
  - apply (forEach_invariant intact);
      [intros; now apply checkTask_intact | exact H].
  - unfold handleFileChange, intact, persisted.
    destruct (addToTaskCache_frame file w) as (_ & A & B & _).
    cbv zeta in *. rewrite A, B. exact H.
  - destruct He.
  - destruct (onload_fields vault w) as (_ & A & B & _).
    unfold intact, persisted. rewrite A, B.
    destruct (dataFile w) as [d|]; [|intros x []].
    destruct (Data.notifiedTasks d) as [a|]; [|intros x []].
    intros x Hx. now apply Set_of_array_In.
Qed.

Lemma no_edit_intact_at_restarts (events : list Event) :
  forall w, intact w -> no_edit events -> intact_at_restarts w events.
Proof.
  induction events as [|e events IH]; intros w Hw Hn; [exact I|].
  apply Forall_cons_iff in Hn as [He Hn]. cbn [intact_at_restarts]. split.
  - destruct e; try exact I. exact Hw.
  - apply IH; [now apply step_intact | exact Hn].
Qed.

Lemma boot_intact (data : option Data.t) (vault : list TFile) :
  intact (boot data vault).
Proof.
  rewrite boot_is_onload.
  apply (step_intact _ (Restart vault) I). intros x [].
Qed.

Lemma checkTask_unconfigured (now : Z) (content : jsstr) (d : Date)
  (w : World) :
  unconfigured w -> unconfigured (world_of (checkTask now content d w)).
Proof.
  intros (Hs & Hd & Hp).
  destruct (checkTask_cases now content d w)
    as [-> | [-> | (t & -> & _ & _ & ->)]]; [now split | now split |].
  cbn [world_of]. unfold unconfigured, sendNotification, saveNotifiedTasks.
  world_fields. rewrite Hs. world_fields. now repeat split.
Qed.

Lemma step_unconfigured (w : World) (e : Event) :
  match e with Edited _ => False | _ => True end ->
  unconfigured w -> unconfigured (step w e).
Proof.
  intros He H. destruct e as [clock | file | value | vault]; cbn [step].
  - apply (forEach_invariant unconfigured);
      [intros; now apply checkTask_unconfigured | exact H].
  - unfold handleFileChange, unconfigured.
    destruct (addToTaskCache_frame file w) as (A & _ & B & _ & C & _).
    cbv zeta in *. rewrite A, B, C. exact H.
  - destruct He.
  - destruct H as (_ & Hd & Hp).
    destruct (onload_fields vault w) as (A & _ & B & _ & C & _).
    unfold unconfigured. rewrite A, B, C. now repeat split.
Qed.

Lemma no_url_blank (data : option Data.t) :
  no_url data ->
  blank (Data.webhookUrl (assign DEFAULT_SETTINGS data)) = true.
Proof.
  destruct data as [d|]; [|reflexivity]. cbn [no_url assign Data.webhookUrl].
  destruct (Data.webhookUrl d) as [u|]; [|reflexivity].
  intros H. apply blank_iff. right. now exists u.
Qed.

End MoreRuns.

(** X9.  The notified set survives a save and a restart as it is: in
    every world the plugin reaches the set has no repetition, and after
    [saveNotifiedTasks] and a restart the set in memory holds the same
    identities in the same order. *)
Theorem notified_set_round_trip (host : Host) (data : option Data.t)
  (vault : list TFile) (events : list Event) (vault' : list TFile) :
  NoDup (notifiedTasks (run (boot data vault) events))
  /\ notifiedTasks
       (step (saveNotifiedTasks (run (boot data vault) events))
             (Restart vault'))
     = notifiedTasks (run (boot data vault) events).
Proof.
  pose proof (run_NoDup data vault events) as Hnd. split; [exact Hnd|].
  cbn [step].
  destruct (onload_fields vault' (saveNotifiedTasks (run (boot data vault) events)))
    as (_ & Hn & _).
  rewrite Hn. unfold saveNotifiedTasks. world_fields.
  cbn [Data.notifiedTasks]. now apply Set_of_array_NoDup.
Qed.

(** X10.  A webhook URL typed in the settings tab is in the settings
    at once and is there again after a restart that follows the edit. *)
Theorem edited_url_survives_restart (host : Host) (w : World) (v : jsstr)
  (vault : list TFile) :
  Data.webhookUrl (settings (step w (Edited v))) = Some v
  /\ Data.webhookUrl (settings (run w [Edited v; Restart vault])) = Some v.
Proof.
  split; [reflexivity|]. cbn [run fold_left step].
  destruct (onload_fields vault (onChange v w)) as (Hs & _).
  rewrite Hs. reflexivity.
Qed.

(** X11.  As long as no URL is configured no request is made: when the
    plugin is loaded without a data file, or from a data file without
    URL or with a URL of white space, and the URL is not edited, then
    after any sweeps, changes of notes and restarts [requestUrl] was
    never called, and every call of [sendNotification] wrote a
    warning. *)
Theorem no_request_without_url (host : Host) (data : option Data.t)
  (vault : list TFile) (events : list Event) :
  no_url data ->
  no_edit events ->
  posted (run (boot data vault) events) = []
  /\ warned (run (boot data vault) events)
     = length (sent (run (boot data vault) events)).
Proof.
  intros Hurl Hne.
  assert (unconfigured (run (boot data vault) events)) as (_ & _ & Hp).
  { apply (run_invariant unconfigured
             (fun e => match e with Edited _ => False | _ => True end));
      [apply step_unconfigured | exact Hne |].
    rewrite boot_is_onload.
    apply (step_unconfigured _ (Restart vault) I).
    unfold unconfigured. world_fields.
    split; [reflexivity|]. split; [now apply no_url_blank | reflexivity]. }
  split; [exact Hp|].
  assert (length (sent (run (boot data vault) events))
          = length (posted (run (boot data vault) events))
            + warned (run (boot data vault) events)) as Ha.
  { apply (run_invariant
             (fun w => length (sent w) = length (posted w) + warned w)
             (fun _ => True)).
    - intros w e _. apply step_accounts.
    - apply Forall_forall. intros; exact I.
    - rewrite boot_is_onload. apply (step_accounts _ (Restart vault)).
      reflexivity. }
  rewrite Hp in Ha. cbn [length] in Ha. lia.
Qed.

(** The theorem at a plugin loaded without data file that goes through
    sweeps, a change and restarts. *)
Lemma no_request_without_url_witness :
  no_url None
  /\ no_edit Example.busy_day
  /\ posted (@run Utc.host (@boot Utc.host None [Example.milk])
               Example.busy_day) = []
  /\ warned (@run Utc.host (@boot Utc.host None [Example.milk])
               Example.busy_day) = 2.
Proof.
  assert (no_edit Example.busy_day) as Hne by (repeat constructor).
  split; [exact I|]. split; [exact Hne|].
  destruct (no_request_without_url Utc.host None [Example.milk]
              Example.busy_day I Hne) as [Hp Hw].
  split; [exact Hp | evaluate].
Defined.

(** X12.  Every call of [sendNotification] ends in a [requestUrl] call
    or in a warning, never in neither: in every world the plugin
    reaches, the calls of [sendNotification] are as many as the
    requests and the warnings together. *)
Theorem every_notification_posts_or_warns (host : Host)
  (data : option Data.t) (vault : list TFile) (events : list Event) :
  length (sent (run (boot data vault) events))
  = length (posted (run (boot data vault) events))
    + warned (run (boot data vault) events).
Proof.
  apply (run_invariant
           (fun w => length (sent w) = length (posted w) + warned w)
           (fun _ => True)).
  - intros w e _. apply step_accounts.
  - apply Forall_forall. intros; exact I.
  - rewrite boot_is_onload. apply (step_accounts _ (Restart vault)).
    reflexivity.
Qed.

(** X13.  When the webhook URL is not edited, the persisted notified
    set stays intact by itself and no identity is notified twice,
    whatever sweeps, changes of notes and restarts happen and whatever
    the data file held when the plugin was loaded. *)
Theorem no_edit_at_most_once (host : Host) (data : option Data.t)
  (vault : list TFile) (events : list Event) :
  no_edit events ->
  intact (run (boot data vault) events)
  /\ forall id,
       count_occ (list_eq_dec N.eq_dec)
                 (sent_ids (run (boot data vault) events)) id <= 1.
Proof.
  intros Hne. split.
  - apply (run_invariant intact
             (fun e => match e with Edited _ => False | _ => True end));
      [apply step_intact | exact Hne | apply boot_intact].
  - apply NoDup_count_occ. apply run_recorded; [|apply boot_recorded].
    apply no_edit_intact_at_restarts; [apply boot_intact | exact Hne].
Qed.

(** The theorem at the same run: the two tasks that are due are
    notified once each, the one that two notes share included. *)
Lemma no_edit_at_most_once_witness :
  no_edit Example.busy_day
  /\ sent_ids (@run Utc.host (@boot Utc.host None [Example.milk])
                 Example.busy_day)
     = [str "Buy milk-2025-01-01T09:00:00.000Z";
        str "Call Ann-2025-01-01T18:30:00.000Z"]
  /\ forall id,
       count_occ (list_eq_dec N.eq_dec)
         (sent_ids (@run Utc.host (@boot Utc.host None [Example.milk])
                      Example.busy_day)) id <= 1.
Proof.
  assert (no_edit Example.busy_day) as Hne by (repeat constructor).
  split; [exact Hne|]. split; [evaluate|].
  destruct (no_edit_at_most_once Utc.host None [Example.milk]
              Example.busy_day Hne) as [_ H].
  exact H.
Defined.

(* ================================================================== *)
(** ** More on [extractTasks]: a note is read line by line *)

Lemma payload_no_terminator (p : jsstr) :
  is_payload p -> Forall (fun c => is_line_terminator c = false) p.
Proof.
  intros Hp. eapply match_seq_Forall; [|exact Hp].
  unfold payload, digits, lits. cbn.
  repeat (apply Forall_cons; [|]); try apply Forall_nil; intros c;
    unfold is_line_terminator; cbn;
    rewrite ?andb_true_iff, ?N.leb_le, ?N.eqb_eq; intros H;
    repeat (apply orb_false_iff; split); apply N.eqb_neq; lia.
Qed.

Lemma marker_text_no_terminator (p : jsstr) :
  is_payload p ->
  Forall (fun c => is_line_terminator c = false) (marker_text p).
Proof.
  intros Hp. unfold marker_text. apply Forall_app. split; [|apply Forall_app; split].
  - repeat constructor.
  - now apply payload_no_terminator.
  - repeat constructor.
Qed.

(** A marker does not reach over a line terminator. *)
Lemma match_marker_before_terminator (x y p r : jsstr) (lt : N) :
  is_line_terminator lt = true ->
  match_marker (x ++ lt :: y) = Some (p, r) ->
  exists r', match_marker x = Some (p, r') /\ r = r' ++ lt :: y.
Proof.
  intros Hlt E. apply match_marker_inv in E as [E Hp].
  apply app_eq_app in E as [l [[E1 E2] | [E1 E2]]].
  - exists l. split; [|exact E2]. rewrite E1. now apply match_marker_text.
  - destruct l as [|c l].
    + exists []. cbn [app] in *. rewrite app_nil_r in E1. split; [|now rewrite <- E2].
      rewrite <- E1, <- (app_nil_r (marker_text p)).
      now apply match_marker_text.
    + cbn [app] in E2. injection E2 as <- _. exfalso.
      pose proof (marker_text_no_terminator p Hp) as Hno.
      rewrite E1 in Hno. apply Forall_app in Hno as [_ Hno].
      inversion Hno; congruence.
Qed.

Lemma no_marker_before_terminator (a b : jsstr) (lt : N) (k : nat) :
  is_line_terminator lt = true ->
  k <= length a ->
  match_marker (skipn k a) = None ->
  match_marker (skipn k (a ++ lt :: b)) = None.
Proof.
  intros Hlt Hk Hno. rewrite skipn_app.
  replace (k - length a) with 0 by lia. cbn [skipn].
  destruct (match_marker (skipn k a ++ lt :: b)) as [[p r]|] eqn:E;
    [|reflexivity].
  destruct (match_marker_before_terminator _ _ _ _ _ Hlt E) as (r' & E' & _).
  congruence.
Qed.

Lemma last_line_after_terminator (a pre : jsstr) (lt : N) :
  is_line_terminator lt = true ->
  last_line (a ++ lt :: pre) = last_line pre.
Proof.
  intros Hlt. induction a as [|c a IH].
  - cbn [app last_line existsb]. now rewrite Hlt.
  - rewrite <- app_comm_cons. cbn [last_line].
    assert (existsb is_line_terminator (c :: a ++ lt :: pre) = true) as ->.
    { apply existsb_exists. exists lt. split; [|exact Hlt].
      right. apply in_or_app. right. now left. }
    exact IH.
Qed.

Section Lines.

Context {host : Host}.

Lemma extractTasks_first (n : nat) (pre p r : jsstr) :
  is_payload p ->
  marker_free (length pre) (pre ++ marker_text p ++ r) ->
  List.map fields (extractTasks n (pre ++ marker_text p ++ r))
  = (reminderText_of (last_line pre), Date_parse p)
    :: List.map fields (extractTasks 0 r).
Proof.
  intros Hp Hfree.
  rewrite extractTasks_eq, (exec_first_marker pre r Hp Hfree).
  cbn [List.map fields content dueDateTime group1 group3 rest].
  now rewrite (extractTasks_fields (S n) 0).
Qed.

Lemma skipn_after_terminator (a b : jsstr) (lt : N) (j : nat) :
  skipn (length a + 1 + j) (a ++ lt :: b) = skipn j b.
Proof.
  rewrite skipn_app, skipn_all2 by lia.
  replace (length a + 1 + j - length a) with (S j) by lia. reflexivity.
Qed.

(** A first part without marker, ended by a line terminator, adds
    nothing and changes nothing. *)
Lemma extractTasks_after_plain_lines (n : nat) (a b : jsstr) (lt : N) :
  is_line_terminator lt = true ->
  exec a = None ->
  List.map fields (extractTasks n (a ++ lt :: b))
  = List.map fields (extractTasks n b).
Proof.
  intros Hlt Ea. pose proof (exec_none_no_marker a Ea) as Hno.
  assert (forall k, k <= length a ->
            match_marker (skipn k (a ++ lt :: b)) = None) as Hhead
    by (intros k Hk; now apply no_marker_before_terminator).
  destruct (exec b) as [m|] eqn:Eb.
  - destruct (exec_first b m Eb) as (pre & Hb & Hp & Hfree).
    clear Eb. remember (group3 m) as p. remember (rest m) as r.
    clear Heqp Heqr m. subst b.
    rewrite (extractTasks_first n pre p r Hp Hfree).
    replace (a ++ lt :: pre ++ marker_text p ++ r)
      with ((a ++ lt :: pre) ++ marker_text p ++ r)
      by now rewrite <- app_assoc.
    rewrite extractTasks_first, last_line_after_terminator;
      [reflexivity | exact Hlt | exact Hp |].
    intros k Hk. rewrite length_app in Hk. cbn [length] in Hk.
    replace ((a ++ lt :: pre) ++ marker_text p ++ r)
      with (a ++ lt :: (pre ++ marker_text p ++ r))
      by now rewrite <- app_assoc.
    destruct (Nat.le_gt_cases k (length a)) as [Hle | Hgt].
    + now apply Hhead.
    + replace k with (length a + 1 + (k - length a - 1)) by lia.
      rewrite skipn_after_terminator. apply Hfree. lia.
  - rewrite (extractTasks_no_marker n b (exec_none_no_marker b Eb)).
    rewrite extractTasks_no_marker; [reflexivity|].
    intros k. destruct (Nat.le_gt_cases k (length a)) as [Hle | Hgt].
    + now apply Hhead.
    + replace k with (length a + 1 + (k - length a - 1)) by lia.
      rewrite skipn_after_terminator. now apply exec_none_no_marker.
Qed.

Lemma extractTasks_lines_aux (len : nat) :
  forall (n : nat) (a b : jsstr) (lt : N),
  length a <= len ->
  is_line_terminator lt = true ->
  List.map fields (extractTasks n (a ++ lt :: b))
  = List.map fields (extractTasks n a) ++ List.map fields (extractTasks n b).
Proof.
  induction len as [|len IH]; intros n a b lt Hlen Hlt;
    destruct (exec a) as [m|] eqn:Ea.
  - apply exec_rest_shorter in Ea. lia.
  - rewrite (extractTasks_after_plain_lines n a b lt Hlt Ea).
    now rewrite (extractTasks_no_marker n a (exec_none_no_marker a Ea)).
  - destruct (exec_first a m Ea) as (pre & Ha & Hp & Hfree).
    apply exec_rest_shorter in Ea.
    remember (group3 m) as p. remember (rest m) as r.
    clear Heqp Heqr m. subst a.
    assert (marker_free (length pre)
              (pre ++ marker_text p ++ r ++ lt :: b)) as Hfree'.
    { intros k Hk.
      replace (pre ++ marker_text p ++ r ++ lt :: b)
        with ((pre ++ marker_text p ++ r) ++ lt :: b)
        by now rewrite <- !app_assoc.
      apply no_marker_before_terminator; [exact Hlt | | now apply Hfree].
      rewrite length_app. lia. }
    replace ((pre ++ marker_text p ++ r) ++ lt :: b)
      with (pre ++ marker_text p ++ r ++ lt :: b)
      by now rewrite <- !app_assoc.
    rewrite (extractTasks_first n pre p _ Hp Hfree').
    rewrite (extractTasks_first n pre p r Hp Hfree).
    cbn [app]. f_equal.
    pose proof (marker_text_length Hp) as Hm.
    rewrite !length_app in Hlen.
    rewrite (IH 0 r b lt) by (assumption || lia).
    now rewrite (extractTasks_fields n 0 b).
  - rewrite (extractTasks_after_plain_lines n a b lt Hlt Ea).
    now rewrite (extractTasks_no_marker n a (exec_none_no_marker a Ea)).
Qed.

End Lines.

(** X14.  A note is read line by line: the tasks of two texts joined
    by a line terminator are the tasks of the first text followed by
    the tasks of the second, with the same contents and due times, so
    a line never changes the tasks found on another line. *)
Theorem extractTasks_line_by_line (host : Host) (n : nat) (a b : jsstr)
  (lt : N) :
  is_line_terminator lt = true ->
  List.map fields (extractTasks n (a ++ lt :: b))
  = List.map fields (extractTasks n a) ++ List.map fields (extractTasks n b).
Proof. intros Hlt. now apply (extractTasks_lines_aux (length a)). Qed.

(** The theorem at the two lines of the note [Example.chores]. *)
Lemma extractTasks_line_by_line_witness :
  is_line_terminator 10 = true
  /\ List.map fields
       (@extractTasks Utc.host 0
          (str "- [ ] Call Ann (discord@2025-01-01 18:30)"
           ++ 10%N :: str "Pay rent (discord@2025-02-01 08:00)"))
     = [(str "Call Ann", TimeValue 1735756200000);
        (str "Pay rent", TimeValue 1738396800000)].
Proof.
  split; [reflexivity|].
  rewrite (extractTasks_line_by_line Utc.host 0
             (str "- [ ] Call Ann (discord@2025-01-01 18:30)")
             (str "Pay rent (discord@2025-02-01 08:00)") 10 eq_refl).
  evaluate.
Defined.

(* ================================================================== *)
(** ** More on the cache and on sweeps over valid dates *)

(** X15.  The cache grows at every change event: in every world the
    plugin reaches, handling a change of a markdown note adds as many
    entries to the cache as the note has markers, whether or not these
    tasks are in the cache already. *)
Theorem change_event_grows_cache (host : Host) (data : option Data.t)
  (vault : list TFile) (events : list Event) (file : TFile) :
  extension file = str "md" ->
  length (taskCache (handleFileChange file (run (boot data vault) events)))
  = length (taskCache (run (boot data vault) events))
    + length (payloads (text file)).
Proof.
  intros Hmd. unfold handleFileChange.
  destruct (addToTaskCache_md file _ (run_allocated data vault events) Hmd)
    as [E _].
  rewrite E, length_app. f_equal.
  pose proof (extractTasks_dates (length (text file))
                (heapTop (run (boot data vault) events)) (text file)
                (le_n _)) as H.
  apply (f_equal (@length _)) in H. now rewrite !length_map in H.
Qed.

(** The theorem at a note with one marker that was changed twice
    before: the cache goes from three entries to four. *)
Lemma change_event_grows_cache_witness :
  extension Example.milk = str "md"
  /\ length (taskCache
               (@run Utc.host (@boot Utc.host None [Example.milk])
                  [Changed Example.milk; Changed Example.milk])) = 3
  /\ length (taskCache
               (@handleFileChange Utc.host Example.milk
                  (@run Utc.host (@boot Utc.host None [Example.milk])
                     [Changed Example.milk; Changed Example.milk]))) = 4.
Proof.
  split; [reflexivity|]. split; [evaluate|].
  rewrite (change_event_grows_cache Utc.host None [Example.milk]
             [Changed Example.milk; Changed Example.milk] Example.milk
             eq_refl).
  evaluate.
Defined.

(** X16.  When every date in the cache is valid, a sweep returns, and
    every cached task that is due when its turn comes has its identity
    in the notified set after the sweep; if the identity was not there
    before the sweep, the sweep called [sendNotification] for it
    exactly once. *)
Theorem sweep_notifies_every_due_task (host : Host) (clock : nat -> Z)
  (w : World) :
  Forall valid_date (taskCache w) ->
  exists delta,
    threw (checkTasks clock w) = false
    /\ sent (world_of (checkTasks clock w)) = sent w ++ delta
    /\ forall i t tv,
         nth_error (taskCache w) i = Some t ->
         dueDateTime t = TimeValue tv ->
         (tv <= clock i)%Z ->
         In (taskId_of (content t) (isoString tv))
            (notifiedTasks (world_of (checkTasks clock w)))
         /\ (~ In (taskId_of (content t) (isoString tv)) (notifiedTasks w) ->
             count_occ (list_eq_dec N.eq_dec) (ids_of delta)
                       (taskId_of (content t) (isoString tv)) = 1).
Proof.
  intros Hv. unfold checkTasks.
  destruct (forEach_fires_due clock (taskCache w) 0 w Hv)
    as (w' & delta & R & Hs & Hn & Hnd & _ & Hdue).
  exists delta. rewrite R. cbn [threw world_of].
  split; [reflexivity|]. split; [exact Hs|].
  intros i t tv Hnth Ht Hclock.
  pose proof (Hdue i t tv Hnth Ht Hclock) as Hin. split; [exact Hin|].
  intros Hnot. apply NoDup_count_occ'; [exact Hnd|].
  apply Hn in Hin. tauto.
Qed.

(** The theorem at a vault of two notes, swept on 2025-01-02: the two
    tasks that are due are notified, the one due in February is not. *)
Lemma sweep_notifies_every_due_task_witness :
  Forall valid_date
    (taskCache (@boot Utc.host None [Example.milk; Example.chores]))
  /\ threw (@checkTasks Utc.host (Example.at_time Example.jan2)
              (@boot Utc.host None [Example.milk; Example.chores])) = false
  /\ sent_ids
       (world_of
          (@checkTasks Utc.host (Example.at_time Example.jan2)
             (@boot Utc.host None [Example.milk; Example.chores])))
     = [str "Buy milk-2025-01-01T09:00:00.000Z";
        str "Call Ann-2025-01-01T18:30:00.000Z"].
Proof.
  assert (Forall valid_date
            (taskCache (@boot Utc.host None [Example.milk; Example.chores])))
    as Hv.
  { vm_compute. repeat constructor; discriminate. }
  split; [exact Hv|].
  destruct (sweep_notifies_every_due_task Utc.host
              (Example.at_time Example.jan2)
              (@boot Utc.host None [Example.milk; Example.chores]) Hv)
    as (delta & Ht & _).
  split; [exact Ht | evaluate].
Defined.
